(** * aws-runas: configuration resolution, address management and the
      federation helpers, embedded in Rocq.

    The development follows the layout of the repository:

    - [SharedCfg]  : lib/config/shared_cfg_handler.go
    - [Chain]      : config/chain_loader.go
    - [Metadata]   : the linux address management of the metadata service
    - [AssumeRole] : lib/assume_role_provider (duration policy, constructor)
    - [Base64]     : the unpadded URL-safe base64 encoding
    - [Sha256]     : SHA-256
    - [Pkce]       : client/external/pkce (verifier and challenge)
    - [OidcToken]  : credentials/oidc_identity_token (expiration check)

    Each module gives its definitions first and its lemmas and theorems
    after them.

    Go values are embedded as follows.  A [string] is a Rocq [string] (Go's
    [len] counts bytes, as [String.length] does).  A pointer that may be nil
    is an [option].  A Go [error] result is an [option] of an error value,
    [None] being nil.  The process environment is a finite map from names
    to values.  Code that mutates its receiver or its argument returns the
    new value of what it mutated, together with the list of effects it
    performed on the outside world.  Calls to the logger are left out:
    nothing they write is part of a result. *)

From Stdlib Require Import ZArith List String Ascii Bool Lia.
From stdpp Require Import base option gmap strings list.

Local Open Scope string_scope.
Local Open Scope list_scope.

(* ===================================================================== *)
(** * lib/config/shared_cfg_handler.go *)
(* ===================================================================== *)

Module SharedCfg.

(** Modelled from the spec: the declaration of [AwsConfig] of package
    lib/config is not among the sources.  The handler reads and writes the
    fields [Name], [RoleArn], [SourceProfile] and the two unexported
    pointers [defaultProfile] and [sourceProfile]; the remaining fields are
    those of the spec's Profile record. *)
#[warnings="-register-all"]
Inductive AwsConfig : Type := mkAwsConfig {
  Name           : string;
  Region         : string;
  RoleArn        : string;
  SourceProfile  : string;
  MfaSerial      : string;
  ExternalId     : string;
  defaultProfile : option AwsConfig;
  sourceProfile  : option AwsConfig
}.

(** [new(AwsConfig)]: every field holds its zero value. *)
Definition new_AwsConfig : AwsConfig :=
  mkAwsConfig "" "" "" "" "" "" None None.

Definition set_Name (n : string) (c : AwsConfig) : AwsConfig :=
  mkAwsConfig n (Region c) (RoleArn c) (SourceProfile c) (MfaSerial c)
              (ExternalId c) (defaultProfile c) (sourceProfile c).

Definition set_defaultProfile (d : option AwsConfig) (c : AwsConfig) : AwsConfig :=
  mkAwsConfig (Name c) (Region c) (RoleArn c) (SourceProfile c) (MfaSerial c)
              (ExternalId c) d (sourceProfile c).

Definition set_sourceProfile (s : option AwsConfig) (c : AwsConfig) : AwsConfig :=
  mkAwsConfig (Name c) (Region c) (RoleArn c) (SourceProfile c) (MfaSerial c)
              (ExternalId c) (defaultProfile c) s.

(** The receiver.  [log] is the optional logger; only whether it is nil
    matters to the control flow, and what is written to it is no part of
    the results. *)
Record SharedCfgConfigHandler : Type := mkHandler {
  confFile   : string;
  credFile   : string;
  profile    : string;
  defProfile : string;
  log        : option nat
}.

Definition set_confFile (v : string) (h : SharedCfgConfigHandler) :=
  mkHandler v (credFile h) (profile h) (defProfile h) (log h).
Definition set_credFile (v : string) (h : SharedCfgConfigHandler) :=
  mkHandler (confFile h) v (profile h) (defProfile h) (log h).
Definition set_profile (v : string) (h : SharedCfgConfigHandler) :=
  mkHandler (confFile h) (credFile h) v (defProfile h) (log h).
Definition set_defProfile (v : string) (h : SharedCfgConfigHandler) :=
  mkHandler (confFile h) (credFile h) (profile h) v (log h).

(** What the handler does to the outside world. *)
Inductive Event : Type :=
| EvLookupEnv (name : string)
| EvIniLoad (path : string).

(** The process environment, as [os.LookupEnv] sees it. *)
Abbreviation Env := (gmap string string).

Definition LookupEnv (env : Env) (name : string) : option string := env !! name.

(** [Profile] sets the profile to read the configuration of. *)
Definition Profile (p : string) (h : SharedCfgConfigHandler) : SharedCfgConfigHandler :=
  set_profile p h.

(** [readEnv] overwrites a field of the receiver for each of the four
    variables that is set (set to the empty string counts as set). *)
Definition readEnv (env : Env) (h : SharedCfgConfigHandler)
  : SharedCfgConfigHandler * list Event :=
  let h := match LookupEnv env "AWS_CONFIG_FILE" with
           | Some conf => set_confFile conf h | None => h end in
  let h := match LookupEnv env "AWS_SHARED_CREDENTIALS_FILE" with
           | Some cred => set_credFile cred h | None => h end in
  let h := match LookupEnv env "AWS_DEFAULT_PROFILE" with
           | Some dp => set_defProfile dp h | None => h end in
  let h := match LookupEnv env "AWS_PROFILE" with
           | Some p => set_profile p h | None => h end in
  (h, [EvLookupEnv "AWS_CONFIG_FILE"; EvLookupEnv "AWS_SHARED_CREDENTIALS_FILE";
       EvLookupEnv "AWS_DEFAULT_PROFILE"; EvLookupEnv "AWS_PROFILE"]).

(** The profile [loadProfile] reads: the receiver's, or the default
    profile's name when the receiver's is empty. *)
Definition effective_profile (h : SharedCfgConfigHandler) : string :=
  if (String.length (profile h) <? 1)%nat then defProfile h else profile h.

(** The handler [Config] hands to [loadProfile]: the explicit name if
    there is one, then the environment on top of it. *)
Definition selected (env : Env) (h : SharedCfgConfigHandler) (c : AwsConfig)
  : SharedCfgConfigHandler :=
  fst (readEnv env
         (if (0 <? String.length (Name c))%nat then Profile (Name c) h else h)).

(** The ini library (github.com/go-ini/ini) is an external collaborator: a
    black-box reader of sections of keys and values. *)
Section Handler.

Context {error IniFile IniSection : Type}.

(** [ini.Load path]: the parsed file at [path], or an error. *)
Variable ini_Load : string -> error + IniFile.
(** [f.GetSection name]. *)
Variable GetSection : IniFile -> string -> error + IniSection.
(** [s.MapTo c]: [c] after the keys of [s] have been stored in it, and
    the error if one occurred (the fields stored before it stay). *)
Variable MapTo : IniSection -> AwsConfig -> AwsConfig * option error.

Definition mapConfig (h : SharedCfgConfigHandler) (p : string) (c : AwsConfig)
           (f : IniFile) : AwsConfig * option error :=
  let s :=
    (* first try lookup of bare profile name *)
    match GetSection f p with
    | inr s => inr s
    | inl _ => GetSection f ("profile " +:+ p)
    end in
  match s with
  | inl err => (c, Some err)
  | inr s =>
      match MapTo s c with
      | (c, Some err) => (c, Some err)
      | (c, None) => (set_Name p c, None)
      end
  end.

Definition loadProfile (h : SharedCfgConfigHandler) (c : AwsConfig)
  : SharedCfgConfigHandler * AwsConfig * list Event * option error :=
  let ev := [EvIniLoad (confFile h)] in
  match ini_Load (confFile h) with
  | inl err => (h, c, ev, Some err)
  | inr f =>
      (* f.BlockMode = false only turns off the locking of the parsed file *)
      (* load default section; its errors are only logged *)
      let c := set_defaultProfile
                 (Some (fst (mapConfig h (defProfile h) new_AwsConfig f))) c in
      (* fallback to default profile name if unset *)
      let h := if (String.length (profile h) <? 1)%nat
               then set_profile (defProfile h) h else h in
      match mapConfig h (profile h) c f with
      | (c, Some err) => (h, c, ev, Some err)
      | (c, None) =>
          if ((0 <? String.length (SourceProfile c))%nat
              && (0 <? String.length (RoleArn c))%nat)%bool
          then
            match mapConfig h (SourceProfile c) new_AwsConfig f with
            | (sp, Some err) => (h, set_sourceProfile (Some sp) c, ev, Some err)
            | (sp, None) =>
                (h, set_Name (profile h) (set_sourceProfile (Some sp) c), ev, None)
            end
          else (h, set_Name (profile h) c, ev, None)
      end
  end.

(** [Config]: the receiver and the configuration after the call, the
    effects performed, and the returned error. *)
Definition Config (env : Env) (h : SharedCfgConfigHandler) (c : option AwsConfig)
  : SharedCfgConfigHandler * option AwsConfig * list Event * option error :=
  match c with
  | None => (h, None, [], None)
  | Some c =>
      let h := if (0 <? String.length (Name c))%nat then Profile (Name c) h else h in
      let '(h, ev1) := readEnv env h in
      match loadProfile h c with
      | (h, c, ev2, Some err) => (h, Some c, ev1 ++ ev2, Some err)
      | (h, c, ev2, None) =>
          let c := match sourceProfile c with
                   | Some sp =>
                       set_sourceProfile (Some (set_Name (SourceProfile c) sp)) c
                   | None => c
                   end in
          (h, Some c, ev1 ++ ev2, None)
      end
  end.

End Handler.

(** ** A file system to run the handler on

    Sections are lists of keys and values, a file is a list of named
    sections, and the file system maps paths to files.  [MapTo] stores
    the keys the configuration has a field for. *)
Module Ini.

Definition IniSection : Type := list (string * string).
Definition IniFile : Type := list (string * IniSection).

Inductive error : Type :=
  | ErrNoFile (path : string)
  | ErrNoSection (name : string).

Definition ini_Load (fs : gmap string IniFile) (path : string) : error + IniFile :=
  match fs !! path with
  | Some f => inr f
  | None => inl (ErrNoFile path)
  end.

Fixpoint GetSection (f : IniFile) (name : string) : error + IniSection :=
  match f with
  | [] => inl (ErrNoSection name)
  | (n, s) :: f => if String.eqb n name then inr s else GetSection f name
  end.

Definition store (kv : string * string) (c : AwsConfig) : AwsConfig :=
  let (k, v) := kv in
  if String.eqb k "region" then
    mkAwsConfig (Name c) v (RoleArn c) (SourceProfile c) (MfaSerial c)
                (ExternalId c) (defaultProfile c) (sourceProfile c)
  else if String.eqb k "role_arn" then
    mkAwsConfig (Name c) (Region c) v (SourceProfile c) (MfaSerial c)
                (ExternalId c) (defaultProfile c) (sourceProfile c)
  else if String.eqb k "source_profile" then
    mkAwsConfig (Name c) (Region c) (RoleArn c) v (MfaSerial c)
                (ExternalId c) (defaultProfile c) (sourceProfile c)
  else if String.eqb k "mfa_serial" then
    mkAwsConfig (Name c) (Region c) (RoleArn c) (SourceProfile c) v
                (ExternalId c) (defaultProfile c) (sourceProfile c)
  else if String.eqb k "external_id" then
    mkAwsConfig (Name c) (Region c) (RoleArn c) (SourceProfile c) (MfaSerial c)
                v (defaultProfile c) (sourceProfile c)
  else c.

Definition MapTo (s : IniSection) (c : AwsConfig) : AwsConfig * option error :=
  (fold_left (fun c kv => store kv c) s c, None).

End Ini.

(** The handler [NewSharedCfgConfigHandler] returns when the SDK's default
    locations are [conf] and [cred]; the SDK's default profile is
    ["default"]. *)
Definition NewSharedCfgConfigHandler (conf cred : string) (opts : option nat)
  : SharedCfgConfigHandler :=
  mkHandler conf cred "" "default" opts.

Module Scenario.

Definition conf : string := "/home/user/.aws/config".
Definition cred : string := "/home/user/.aws/credentials".

(** A configuration file with a default section and two profiles. *)
Definition file : Ini.IniFile :=
  [ ("default", [("region", "us-east-1")]);
    ("profile explicit", [("region", "eu-west-1")]);
    ("profile env", [("region", "ap-south-1")]) ].

Definition fs : gmap string Ini.IniFile := {[ conf := file ]}.

Definition env : Env := {[ "AWS_PROFILE" := "env" ]}.

Definition h : SharedCfgConfigHandler := NewSharedCfgConfigHandler conf cred None.

(** The caller selects profile "explicit". *)
Definition c : AwsConfig := set_Name "explicit" new_AwsConfig.

Definition run (env : Env) :=
  Config (Ini.ini_Load fs) Ini.GetSection Ini.MapTo env h (Some c).

(** The caller selects profile "explicit" through [Profile] and passes a
    configuration without a name. *)
Definition run_Profile (env : Env) :=
  Config (Ini.ini_Load fs) Ini.GetSection Ini.MapTo env
         (Profile "explicit" h) (Some new_AwsConfig).

End Scenario.

(** ** What [Config] leaves in the receiver and in the configuration *)

Section HandlerFacts.

Context {error IniFile IniSection : Type}.
Variable ini_Load : string -> error + IniFile.
Variable GetSection : IniFile -> string -> error + IniSection.
Variable MapTo : IniSection -> AwsConfig -> AwsConfig * option error.

Lemma readEnv_profile env h :
  profile (fst (readEnv env h)) =
    match LookupEnv env "AWS_PROFILE" with Some p => p | None => profile h end.
Proof.
  unfold readEnv; cbn [fst].
  destruct (LookupEnv env "AWS_PROFILE"); [reflexivity|].
  destruct (LookupEnv env "AWS_DEFAULT_PROFILE"),
           (LookupEnv env "AWS_SHARED_CREDENTIALS_FILE"),
           (LookupEnv env "AWS_CONFIG_FILE"); reflexivity.
Qed.

Lemma readEnv_events env h :
  snd (readEnv env h) =
    [EvLookupEnv "AWS_CONFIG_FILE"; EvLookupEnv "AWS_SHARED_CREDENTIALS_FILE";
     EvLookupEnv "AWS_DEFAULT_PROFILE"; EvLookupEnv "AWS_PROFILE"].
Proof. reflexivity. Qed.

Lemma set_Name_Name n c : Name (set_Name n c) = n.
Proof. reflexivity. Qed.

Lemma set_sourceProfile_Name s c : Name (set_sourceProfile s c) = Name c.
Proof. reflexivity. Qed.

Lemma loadProfile_ok h c h' c' ev :
  loadProfile ini_Load GetSection MapTo h c = (h', c', ev, None) ->
  profile h' = effective_profile h /\ Name c' = effective_profile h.
Proof.
  unfold loadProfile, effective_profile.
  destruct (ini_Load (confFile h)) as [e|f]; [discriminate|].
  set (h1 := if (String.length (profile h) <? 1)%nat then _ else h).
  assert (Hp : profile h1 =
               if (String.length (profile h) <? 1)%nat then defProfile h else profile h).
  { subst h1. destruct (String.length (profile h) <? 1)%nat; reflexivity. }
  destruct (mapConfig GetSection MapTo h1 (profile h1) _ f) as [c1 [e|]]; [discriminate|].
  destruct (_ && _)%bool.
  - destruct (mapConfig GetSection MapTo h1 (SourceProfile c1) new_AwsConfig f) as [sp [e|]];
      [discriminate|].
    intros [= <- <- _]. rewrite set_Name_Name. auto.
  - intros [= <- <- _]. rewrite set_Name_Name. auto.
Qed.

Lemma Config_ok env h c h' c' ev :
  Config ini_Load GetSection MapTo env h (Some c) = (h', Some c', ev, None) ->
  profile h' = effective_profile (selected env h c) /\
  Name c' = effective_profile (selected env h c).
Proof.
  unfold Config, selected.
  destruct (readEnv env _) as [h1 ev1]; cbn [fst].
  destruct (loadProfile ini_Load GetSection MapTo h1 c)
    as [[[h2 c2] ev2] [e|]] eqn:Hl; [discriminate|].
  apply loadProfile_ok in Hl as [Hh Hc].
  intros [= <- <- _]. split; [assumption|].
  destruct (sourceProfile c2); [rewrite set_sourceProfile_Name|]; assumption.
Qed.

(** When AWS_PROFILE is set to a non-empty name, that name is the one
    [Config] loads, whatever was selected through [Profile] or through
    the configuration's [Name]. *)
Lemma Config_env_profile env h c p h' c' ev :
  LookupEnv env "AWS_PROFILE" = Some p ->
  p <> "" ->
  Config ini_Load GetSection MapTo env h (Some c) = (h', Some c', ev, None) ->
  profile h' = p /\ Name c' = p.
Proof.
  intros He Hp Hc. apply Config_ok in Hc.
  assert (Hs : profile (selected env h c) = p).
  { unfold selected. rewrite readEnv_profile, He. reflexivity. }
  unfold effective_profile in Hc. rewrite Hs in Hc.
  destruct p as [|a p]; [contradiction|]. exact Hc.
Qed.

(** When AWS_PROFILE is not set, the explicit name is the one loaded. *)
Lemma Config_explicit_profile env h c h' c' ev :
  LookupEnv env "AWS_PROFILE" = None ->
  Name c <> "" ->
  Config ini_Load GetSection MapTo env h (Some c) = (h', Some c', ev, None) ->
  profile h' = Name c /\ Name c' = Name c.
Proof.
  intros He Hn Hc. apply Config_ok in Hc.
  assert (Hs : profile (selected env h c) = Name c).
  { unfold selected. rewrite readEnv_profile, He.
    destruct (Name c); [contradiction|]. reflexivity. }
  unfold effective_profile in Hc. rewrite Hs in Hc.
  destruct (Name c); [contradiction|]. exact Hc.
Qed.

End HandlerFacts.

(** ** Theorems *)

(** C1: the explicit selection does not win.  With AWS_PROFILE set to
    "env" and the caller's configuration naming profile "explicit",
    [Config] returns without error, and what it has loaded is the section
    of profile "env": the receiver's profile and the configuration's [Name]
    are "env" and the region is that of "env", not that of "explicit".  The
    same happens when "explicit" was selected through [Profile].  With the
    same file and AWS_PROFILE not set, the section of "explicit" is the one
    loaded. *)
Theorem Config_env_overrides_explicit_profile :
  (exists h' c' ev,
      Scenario.run Scenario.env = (h', Some c', ev, None) /\
      profile h' = "env" /\ Name c' = "env" /\ Region c' = "ap-south-1" /\
      Name c' <> Name Scenario.c) /\
  (exists h' c' ev,
      Scenario.run_Profile Scenario.env = (h', Some c', ev, None) /\
      profile h' = "env" /\ Name c' = "env" /\ Region c' = "ap-south-1") /\
  (exists h' c' ev,
      Scenario.run ∅ = (h', Some c', ev, None) /\
      profile h' = "explicit" /\ Name c' = "explicit" /\ Region c' = "eu-west-1").
Proof.
  split; [|split].
  - eexists _, _, _. split; [vm_compute; reflexivity|].
    repeat split; discriminate.
  - eexists _, _, _. split; [vm_compute; reflexivity|].
    repeat split.
  - eexists _, _, _. split; [vm_compute; reflexivity|].
    repeat split.
Qed.

(** C9: [Config] with a nil configuration returns a nil error, and it has
    looked up no environment variable, loaded no file and left the
    receiver as it was, whatever the environment and the file system. *)
Theorem Config_nil_is_noop :
  forall (error IniFile IniSection : Type)
         (ini_Load : string -> error + IniFile)
         (GetSection : IniFile -> string -> error + IniSection)
         (MapTo : IniSection -> AwsConfig -> AwsConfig * option error)
         (env : Env) (h : SharedCfgConfigHandler),
    Config ini_Load GetSection MapTo env h None = (h, None, [], None).
Proof. reflexivity. Qed.

(* --------------------------------------------------------------------- *)
(** ** [Config] on every path: what it reads, loads and leaves behind *)
(* --------------------------------------------------------------------- *)

(** The four components of what [Config] and [loadProfile] return. *)
Definition res_handler {E : Type}
           (r : SharedCfgConfigHandler * option AwsConfig * list Event * option E)
  : SharedCfgConfigHandler := fst (fst (fst r)).
Definition res_config {E : Type}
           (r : SharedCfgConfigHandler * option AwsConfig * list Event * option E)
  : option AwsConfig := snd (fst (fst r)).
Definition res_events {E : Type}
           (r : SharedCfgConfigHandler * option AwsConfig * list Event * option E)
  : list Event := snd (fst r).
Definition res_error {E : Type}
           (r : SharedCfgConfigHandler * option AwsConfig * list Event * option E)
  : option E := snd r.

(** The value of a variable of the environment, or [old] when it is not
    set. *)
Definition env_or (env : Env) (name old : string) : string :=
  match LookupEnv env name with
  | Some v => v
  | None => old
  end.

(** The four lookups of [readEnv], in order. *)
Definition env_lookups : list Event :=
  [EvLookupEnv "AWS_CONFIG_FILE"; EvLookupEnv "AWS_SHARED_CREDENTIALS_FILE";
   EvLookupEnv "AWS_DEFAULT_PROFILE"; EvLookupEnv "AWS_PROFILE"].

(** The name asked for: AWS_PROFILE when it is set, else the name of the
    configuration when it has one, else the receiver's. *)
Definition requested_profile (env : Env) (h : SharedCfgConfigHandler) (c : AwsConfig)
  : string :=
  env_or env "AWS_PROFILE"
         (if (0 <? String.length (Name c))%nat then Name c else profile h).

(** The name of the default profile: AWS_DEFAULT_PROFILE when it is set,
    else the receiver's. *)
Definition default_profile (env : Env) (h : SharedCfgConfigHandler) : string :=
  env_or env "AWS_DEFAULT_PROFILE" (defProfile h).

(** The profile that is loaded: the one asked for, or the default one
    when the name asked for is empty. *)
Definition loaded_profile (env : Env) (h : SharedCfgConfigHandler) (c : AwsConfig)
  : string :=
  if String.eqb (requested_profile env h c) "" then default_profile env h
  else requested_profile env h c.

(** The exported fields of a configuration. *)
Definition exported (c : AwsConfig) : list string :=
  [Name c; Region c; RoleArn c; SourceProfile c; MfaSerial c; ExternalId c].

(** Files and calls to run [Config] on. *)
Module Cases.

(** A file with a role that names a source profile. *)
Definition roles : Ini.IniFile :=
  [ ("default", [("region", "us-east-1")]);
    ("profile admin", [("role_arn", "arn:aws:iam::1:role/Admin");
                       ("source_profile", "base"); ("region", "eu-west-1")]);
    ("base", [("mfa_serial", "arn:aws:iam::1:mfa/me")]) ].

(** A file without a default section. *)
Definition no_default : Ini.IniFile :=
  [ ("profile dev", [("region", "eu-west-1")]) ].

Definition named (n : string) : AwsConfig := set_Name n new_AwsConfig.

Definition run (file : option Ini.IniFile) (env : Env) (h : SharedCfgConfigHandler)
           (c : AwsConfig) :=
  Config (Ini.ini_Load (match file with
                        | Some f => {[ Scenario.conf := f ]}
                        | None => ∅
                        end))
         Ini.GetSection Ini.MapTo env h (Some c).

(** The configuration of profile "admin" of [roles], loaded. *)
Definition admin : AwsConfig :=
  mkAwsConfig "admin" "eu-west-1" "arn:aws:iam::1:role/Admin" "base" "" ""
    (Some (mkAwsConfig "default" "us-east-1" "" "" "" "" None None))
    (Some (mkAwsConfig "base" "" "" "" "arn:aws:iam::1:mfa/me" "" None None)).

End Cases.

Section HandlerPaths.

Context {error IniFile IniSection : Type}.
Variable ini_Load : string -> error + IniFile.
Variable GetSection : IniFile -> string -> error + IniSection.
Variable MapTo : IniSection -> AwsConfig -> AwsConfig * option error.

Local Abbreviation Config := (Config ini_Load GetSection MapTo).
Local Abbreviation loadProfile := (loadProfile ini_Load GetSection MapTo).
Local Abbreviation mapConfig := (mapConfig GetSection MapTo).

Lemma selected_fields env h c :
  confFile (selected env h c) = env_or env "AWS_CONFIG_FILE" (confFile h) /\
  credFile (selected env h c) = env_or env "AWS_SHARED_CREDENTIALS_FILE" (credFile h) /\
  defProfile (selected env h c) = default_profile env h /\
  profile (selected env h c) = requested_profile env h c /\
  log (selected env h c) = log h.
Proof.
  unfold selected, readEnv, default_profile, requested_profile, env_or; cbn [fst].
  destruct (0 <? String.length (Name c))%nat;
    destruct (LookupEnv env "AWS_CONFIG_FILE"),
             (LookupEnv env "AWS_SHARED_CREDENTIALS_FILE"),
             (LookupEnv env "AWS_DEFAULT_PROFILE"),
             (LookupEnv env "AWS_PROFILE"); repeat split.
Qed.

Lemma effective_loaded env h c :
  effective_profile (selected env h c) = loaded_profile env h c.
Proof.
  unfold effective_profile, loaded_profile.
  destruct (selected_fields env h c) as (_ & _ & -> & -> & _).
  destruct (requested_profile env h c); reflexivity.
Qed.

(** [Config] is the lookups of [readEnv] followed by [loadProfile] on the
    receiver they leave. *)
Lemma Config_loadProfile env h c :
  Config env h (Some c) =
    match loadProfile (selected env h c) c with
    | (h', c', ev, Some err) => (h', Some c', env_lookups ++ ev, Some err)
    | (h', c', ev, None) =>
        (h', Some match sourceProfile c' with
                  | Some sp => set_sourceProfile (Some (set_Name (SourceProfile c') sp)) c'
                  | None => c'
                  end, env_lookups ++ ev, None)
    end.
Proof. reflexivity. Qed.

(** What [loadProfile] does to the receiver and to the outside on every
    path. *)
Lemma loadProfile_paths h c :
  let r := loadProfile h c in
  snd (fst r) = [EvIniLoad (confFile h)] /\
  confFile (fst (fst (fst r))) = confFile h /\
  credFile (fst (fst (fst r))) = credFile h /\
  defProfile (fst (fst (fst r))) = defProfile h /\
  log (fst (fst (fst r))) = log h /\
  (profile h <> "" -> profile (fst (fst (fst r))) = profile h).
Proof.
  unfold SharedCfg.loadProfile.
  destruct (ini_Load (confFile h)) as [e|f]; [cbn; repeat split|].
  assert (Hh : forall h1, h1 = (if (String.length (profile h) <? 1)%nat
                                then set_profile (defProfile h) h else h) ->
                          confFile h1 = confFile h /\ credFile h1 = credFile h /\
                          defProfile h1 = defProfile h /\ log h1 = log h /\
                          (profile h <> "" -> profile h1 = profile h)).
  { intros h1 ->. destruct (profile h) as [|a p] eqn:Hp; cbn [String.length Nat.ltb Nat.leb].
    - repeat split. intros Hne. now destruct Hne.
    - repeat split. intros _. exact Hp. }
  specialize (Hh _ eq_refl).
  set (h1 := if (String.length (profile h) <? 1)%nat then _ else h) in *.
  destruct (mapConfig h1 (profile h1) _ f) as [c1 [e|]]; [cbn; tauto|].
  destruct (_ && _)%bool; [|cbn; tauto].
  destruct (mapConfig h1 (SourceProfile c1) new_AwsConfig f) as [sp [e|]]; cbn; tauto.
Qed.

(** What a successful [mapConfig] has done. *)
Lemma mapConfig_ok h p c f c' :
  mapConfig h p c f = (c', None) ->
  exists s, (GetSection f p = inr s \/ GetSection f ("profile " +:+ p) = inr s) /\
            c' = set_Name p (fst (MapTo s c)) /\ snd (MapTo s c) = None.
Proof.
  unfold SharedCfg.mapConfig.
  destruct (GetSection f p) as [e|s] eqn:H1.
  - destruct (GetSection f ("profile " +:+ p)) as [e'|s] eqn:H2; [discriminate|].
    destruct (MapTo s c) as [c0 [e0|]] eqn:Hm; [discriminate|].
    intros [= <-]. exists s. rewrite Hm. auto.
  - destruct (MapTo s c) as [c0 [e0|]] eqn:Hm; [discriminate|].
    intros [= <-]. exists s. rewrite Hm. auto.
Qed.

(** When neither section exists, [mapConfig] fails with the error of the
    second lookup and leaves the configuration alone. *)
Lemma mapConfig_missing h p c f e1 e2 :
  GetSection f p = inl e1 -> GetSection f ("profile " +:+ p) = inl e2 ->
  mapConfig h p c f = (c, Some e2).
Proof. intros H1 H2. unfold SharedCfg.mapConfig. now rewrite H1, H2. Qed.

(** X1: whatever happens afterwards, [Config] on a configuration that is
    not nil looks up the four variables, in the same order, and then loads
    one file, once: the one AWS_CONFIG_FILE names when it is set, else the
    receiver's.  The credentials file is never loaded. *)
Theorem Config_effects :
  forall env h c,
    res_events (Config env h (Some c)) =
      env_lookups ++ [EvIniLoad (env_or env "AWS_CONFIG_FILE" (confFile h))].
Proof.
  intros env h c. rewrite Config_loadProfile.
  pose proof (loadProfile_paths (selected env h c) c) as (Hev & _).
  destruct (selected_fields env h c) as (Hconf & _). rewrite Hconf in Hev.
  destruct (loadProfile (selected env h c) c) as [[[h' c'] ev] [e|]];
    cbn in Hev |- *; now rewrite Hev.
Qed.

(** X2: when the file cannot be loaded, [Config] returns the error of
    [ini.Load] and the configuration is as the caller passed it; the
    receiver has taken the name of the configuration and the environment
    all the same. *)
Theorem Config_load_failure :
  forall env h c err,
    ini_Load (env_or env "AWS_CONFIG_FILE" (confFile h)) = inl err ->
    Config env h (Some c) =
      (selected env h c, Some c,
       env_lookups ++ [EvIniLoad (env_or env "AWS_CONFIG_FILE" (confFile h))],
       Some err).
Proof.
  intros env h c err Hl. rewrite Config_loadProfile.
  destruct (selected_fields env h c) as (Hconf & _).
  unfold SharedCfg.loadProfile. rewrite Hconf, Hl. reflexivity.
Qed.

(** A successful [Config] returns a configuration, named after the
    profile that was loaded. *)
Lemma Config_success env h c :
  res_error (Config env h (Some c)) = None ->
  exists h' c' ev,
    Config env h (Some c) = (h', Some c', ev, None) /\
    Name c' = loaded_profile env h c /\ profile h' = loaded_profile env h c.
Proof.
  intros Hr. destruct (Config env h (Some c)) as [[[h' oc] ev] e] eqn:Hc.
  cbn in Hr. subst e. destruct oc as [c'|].
  - exists h', c', ev. split; [reflexivity|].
    apply (Config_ok ini_Load GetSection MapTo) in Hc as [Hp Hn].
    rewrite effective_loaded in Hp, Hn. auto.
  - rewrite Config_loadProfile in Hc.
    destruct (loadProfile (selected env h c) c) as [[[h1 c1] ev1] [e1|]]; discriminate.
Qed.

(** X3: when [Config] succeeds, the name of the configuration and the
    profile of the receiver are the profile that was loaded: AWS_PROFILE
    when it is set, else the name the configuration came with when it had
    one, else the profile the receiver had; and when that name is empty,
    the default profile, which is AWS_DEFAULT_PROFILE when it is set and
    the receiver's default otherwise. *)
Theorem Config_profile_precedence :
  forall env h c,
    let r := Config env h (Some c) in
    res_error r = None ->
    option_map Name (res_config r) = Some (loaded_profile env h c) /\
    profile (res_handler r) = loaded_profile env h c /\
    defProfile (res_handler r) = default_profile env h.
Proof.
  intros env h c r Hr. subst r.
  destruct (Config_success env h c Hr) as (h' & c' & ev & Hc & Hn & Hp).
  rewrite Hc. cbn. rewrite Hn. repeat split; [exact Hp|].
  rewrite Config_loadProfile in Hc.
  pose proof (loadProfile_paths (selected env h c) c) as (_ & _ & _ & Hd & _).
  destruct (selected_fields env h c) as (_ & _ & Hs & _). rewrite Hs in Hd.
  destruct (loadProfile (selected env h c) c) as [[[h1 c1] ev1] [e1|]];
    [discriminate|]. injection Hc as <- _ _. exact Hd.
Qed.

(** X4: the receiver remembers the selection.  After a call with a named
    configuration, successful or not, a successful call on the same
    receiver with a configuration without a name loads the profile of the
    first call again (AWS_PROFILE not being set). *)
Theorem Config_keeps_selection :
  forall env h c1 c2,
    LookupEnv env "AWS_PROFILE" = None ->
    Name c1 <> "" -> Name c2 = "" ->
    let r1 := Config env h (Some c1) in
    let r2 := Config env (res_handler r1) (Some c2) in
    res_error r2 = None ->
    option_map Name (res_config r2) = Some (Name c1).
Proof.
  intros env h c1 c2 He Hn1 Hn2 r1 r2 Hr2.
  assert (Hreq : requested_profile env h c1 = Name c1).
  { unfold requested_profile, env_or. rewrite He.
    destruct (Name c1); [contradiction | reflexivity]. }
  assert (Hp1 : profile (res_handler r1) = Name c1).
  { subst r1. rewrite Config_loadProfile.
    pose proof (loadProfile_paths (selected env h c1) c1) as (_ & _ & _ & _ & _ & Hp).
    destruct (selected_fields env h c1) as (_ & _ & _ & Hs & _).
    rewrite Hs, Hreq in Hp. specialize (Hp Hn1).
    destruct (loadProfile (selected env h c1) c1) as [[[h1 c1'] ev1] [e1|]]; exact Hp. }
  destruct (Config_success env (res_handler r1) c2 Hr2) as (h' & c' & ev & Hc & Hname & _).
  subst r2. rewrite Hc. cbn. rewrite Hname. f_equal.
  unfold loaded_profile, requested_profile, env_or. rewrite He, Hn2, Hp1. cbn.
  destruct (Name c1); [contradiction | reflexivity].
Qed.

(** X5: when the file has no section for the profile to load, under its
    bare name or with the [profile ] prefix, [Config] returns the error of
    the second lookup.  The configuration keeps the fields and the source
    profile the caller passed, but its default profile has been set. *)
Theorem Config_missing_section :
  forall env h c f e1 e2,
    ini_Load (env_or env "AWS_CONFIG_FILE" (confFile h)) = inr f ->
    GetSection f (loaded_profile env h c) = inl e1 ->
    GetSection f ("profile " +:+ loaded_profile env h c) = inl e2 ->
    let r := Config env h (Some c) in
    res_error r = Some e2 /\
    exists c', res_config r = Some c' /\
               exported c' = exported c /\
               sourceProfile c' = sourceProfile c /\
               defaultProfile c' <> None.
Proof.
  intros env h c f e1 e2 Hl H1 H2 r. subst r. rewrite Config_loadProfile.
  rewrite <- effective_loaded in H1, H2. unfold effective_profile in H1, H2.
  destruct (selected_fields env h c) as (Hconf & _).
  unfold SharedCfg.loadProfile. rewrite Hconf, Hl.
  set (h1 := if (String.length (profile (selected env h c)) <? 1)%nat then _ else _).
  assert (Hp : profile h1 =
               if (String.length (profile (selected env h c)) <? 1)%nat
               then defProfile (selected env h c) else profile (selected env h c)).
  { subst h1. destruct (String.length _ <? 1)%nat; reflexivity. }
  rewrite <- Hp in H1, H2.
  rewrite (mapConfig_missing h1 _ _ f e1 e2 H1 H2). cbn.
  split; [reflexivity|]. eexists. split; [reflexivity|].
  repeat split. discriminate.
Qed.

(** [mapConfig] uses its receiver for logging alone. *)
Lemma mapConfig_handler h h' p c f : mapConfig h p c f = mapConfig h' p c f.
Proof. reflexivity. Qed.

(** X6: a missing default section is no error.  When the file has no
    section for the default profile, [Config] succeeds as soon as the
    section of the profile to load maps without error and the source
    profile, when one is to be attached, maps without error too: it
    returns a nil error and the configuration named after the loaded
    profile, with an empty default profile ([MapTo] does not write the
    unexported fields). *)
Theorem Config_default_section_optional :
  forall env h c f e1 e2 c1,
    (forall s c0, defaultProfile (fst (MapTo s c0)) = defaultProfile c0) ->
    ini_Load (env_or env "AWS_CONFIG_FILE" (confFile h)) = inr f ->
    GetSection f (default_profile env h) = inl e1 ->
    GetSection f ("profile " +:+ default_profile env h) = inl e2 ->
    mapConfig h (loaded_profile env h c)
              (set_defaultProfile (Some new_AwsConfig) c) f = (c1, None) ->
    (SourceProfile c1 = "" \/ RoleArn c1 = "" \/
     snd (mapConfig h (SourceProfile c1) new_AwsConfig f) = None) ->
    let r := Config env h (Some c) in
    res_error r = None /\
    option_map defaultProfile (res_config r) = Some (Some new_AwsConfig) /\
    option_map Name (res_config r) = Some (loaded_profile env h c).
Proof.
  intros env h c f e1 e2 c1 Hpriv Hl H1 H2 Hm Hsrc r. subst r.
  rewrite Config_loadProfile.
  destruct (selected_fields env h c) as (Hconf & _ & Hdef & _).
  pose proof (effective_loaded env h c) as Heff. unfold effective_profile in Heff.
  unfold SharedCfg.loadProfile. rewrite Hconf, Hl, Hdef.
  rewrite (mapConfig_missing _ _ _ f e1 e2 H1 H2). cbn [fst].
  set (h1 := if (String.length (profile (selected env h c)) <? 1)%nat then _ else _).
  assert (Hp : profile h1 = loaded_profile env h c).
  { subst h1. destruct (String.length _ <? 1)%nat; [|exact Heff].
    rewrite Hdef in Heff. exact Heff. }
  rewrite Hp, (mapConfig_handler h1 h), Hm.
  assert (Hd : defaultProfile c1 = Some new_AwsConfig).
  { apply mapConfig_ok in Hm as (s & _ & -> & _). cbn. now rewrite Hpriv. }
  destruct ((0 <? String.length (SourceProfile c1))%nat
            && (0 <? String.length (RoleArn c1))%nat)%bool eqn:Hboth.
  - destruct Hsrc as [Hs|[Hs|Hs]].
    + rewrite Hs in Hboth. discriminate.
    + rewrite Hs, andb_false_r in Hboth. discriminate.
    + rewrite (mapConfig_handler h1 h).
      destruct (mapConfig h (SourceProfile c1) new_AwsConfig f) as [sp [e|]];
        [discriminate|]. cbn. now rewrite Hd.
  - cbn. destruct (sourceProfile c1); cbn; now rewrite Hd.
Qed.

(** X7: when [Config] succeeds and the configuration has both a source
    profile and a role ARN, the source profile is attached under the name
    [source_profile] gives, and the file has a section for it, under its
    bare name or with the [profile ] prefix. *)
Theorem Config_source_profile :
  forall env h c f c',
    ini_Load (env_or env "AWS_CONFIG_FILE" (confFile h)) = inr f ->
    let r := Config env h (Some c) in
    res_error r = None -> res_config r = Some c' ->
    SourceProfile c' <> "" -> RoleArn c' <> "" ->
    exists sp s,
      sourceProfile c' = Some sp /\ Name sp = SourceProfile c' /\
      (GetSection f (SourceProfile c') = inr s \/
       GetSection f ("profile " +:+ SourceProfile c') = inr s).
Proof.
  intros env h c f c' Hl r Hr Hc Hsrc Hrole. subst r.
  rewrite Config_loadProfile in Hr, Hc.
  destruct (selected_fields env h c) as (Hconf & _).
  unfold SharedCfg.loadProfile in Hr, Hc. rewrite Hconf, Hl in Hr, Hc.
  set (h1 := if (String.length (profile (selected env h c)) <? 1)%nat then _ else _) in *.
  destruct (mapConfig h1 (profile h1) _ f) as [c1 [e|]]; [discriminate|].
  destruct ((0 <? String.length (SourceProfile c1))%nat
            && (0 <? String.length (RoleArn c1))%nat)%bool eqn:Hboth.
  - destruct (mapConfig h1 (SourceProfile c1) new_AwsConfig f) as [sp [e|]] eqn:Hm;
      [discriminate|].
    apply mapConfig_ok in Hm as (s & Hs & -> & _).
    cbn in Hc. injection Hc as <-. cbn. eexists _, s. repeat split. exact Hs.
  - exfalso. cbn in Hc.
    assert (Hf : SourceProfile c' = SourceProfile c1 /\ RoleArn c' = RoleArn c1).
    { destruct (sourceProfile c1); injection Hc as <-; split; reflexivity. }
    destruct Hf as [Hf1 Hf2]. rewrite Hf1 in Hsrc. rewrite Hf2 in Hrole.
    destruct (SourceProfile c1); [contradiction|].
    destruct (RoleArn c1); [contradiction|]. discriminate.
Qed.

End HandlerPaths.

Lemma Config_load_failure_witness :
  Cases.run None ∅ Scenario.h (Cases.named "dev") =
    (selected ∅ Scenario.h (Cases.named "dev"), Some (Cases.named "dev"),
     env_lookups ++ [EvIniLoad (env_or ∅ "AWS_CONFIG_FILE" (confFile Scenario.h))],
     Some (Ini.ErrNoFile Scenario.conf)).
Proof.
  apply (Config_load_failure (Ini.ini_Load ∅) Ini.GetSection Ini.MapTo ∅ Scenario.h
           (Cases.named "dev") (Ini.ErrNoFile Scenario.conf)).
  vm_compute. reflexivity.
Defined.

Lemma Config_profile_precedence_witness :
  let env : Env := {[ "AWS_PROFILE" := ""; "AWS_DEFAULT_PROFILE" := "base" ]} in
  let r := Cases.run (Some Cases.roles) env Scenario.h (Cases.named "admin") in
  option_map Name (res_config r) = Some "base" /\
  profile (res_handler r) = "base" /\
  defProfile (res_handler r) = "base".
Proof.
  intros env r.
  apply (Config_profile_precedence
           (Ini.ini_Load {[ Scenario.conf := Cases.roles ]}) Ini.GetSection Ini.MapTo
           env Scenario.h (Cases.named "admin")).
  vm_compute. reflexivity.
Defined.

Lemma Config_keeps_selection_witness :
  let r1 := Cases.run (Some Scenario.file) ∅ Scenario.h (Cases.named "explicit") in
  let r2 := Cases.run (Some Scenario.file) ∅ (res_handler r1) new_AwsConfig in
  option_map Name (res_config r2) = Some "explicit".
Proof.
  intros r1 r2.
  apply (Config_keeps_selection
           (Ini.ini_Load {[ Scenario.conf := Scenario.file ]}) Ini.GetSection Ini.MapTo
           ∅ Scenario.h (Cases.named "explicit") new_AwsConfig).
  - vm_compute. reflexivity.
  - discriminate.
  - reflexivity.
  - vm_compute. reflexivity.
Defined.

Lemma Config_missing_section_witness :
  let r := Cases.run (Some Scenario.file) ∅ Scenario.h (Cases.named "nosuch") in
  res_error r = Some (Ini.ErrNoSection "profile nosuch") /\
  exists c', res_config r = Some c' /\
             exported c' = exported (Cases.named "nosuch") /\
             sourceProfile c' = sourceProfile (Cases.named "nosuch") /\
             defaultProfile c' <> None.
Proof.
  intros r.
  apply (Config_missing_section
           (Ini.ini_Load {[ Scenario.conf := Scenario.file ]}) Ini.GetSection Ini.MapTo
           ∅ Scenario.h (Cases.named "nosuch") Scenario.file
           (Ini.ErrNoSection "nosuch") (Ini.ErrNoSection "profile nosuch"));
    vm_compute; reflexivity.
Defined.

(** The reader of the file system writes no unexported field. *)
Lemma Ini_MapTo_defaultProfile (s : Ini.IniSection) (c : AwsConfig) :
  defaultProfile (fst (Ini.MapTo s c)) = defaultProfile c.
Proof.
  unfold Ini.MapTo; cbn [fst]. revert c.
  induction s as [|[k v] s IH]; intros c; [reflexivity|].
  cbn [fold_left]. rewrite IH. unfold Ini.store.
  repeat (destruct (String.eqb k _); [reflexivity|]). reflexivity.
Qed.

Lemma Config_default_section_optional_witness :
  let r := Cases.run (Some Cases.no_default) ∅ Scenario.h (Cases.named "dev") in
  res_error r = None /\
  option_map defaultProfile (res_config r) = Some (Some new_AwsConfig) /\
  option_map Name (res_config r) = Some (loaded_profile ∅ Scenario.h (Cases.named "dev")).
Proof.
  intros r.
  apply (Config_default_section_optional
           (Ini.ini_Load {[ Scenario.conf := Cases.no_default ]}) Ini.GetSection Ini.MapTo
           ∅ Scenario.h (Cases.named "dev") Cases.no_default
           (Ini.ErrNoSection "default") (Ini.ErrNoSection "profile default")
           (mkAwsConfig "dev" "eu-west-1" "" "" "" "" (Some new_AwsConfig) None)).
  - exact Ini_MapTo_defaultProfile.
  - vm_compute. reflexivity.
  - vm_compute. reflexivity.
  - vm_compute. reflexivity.
  - vm_compute. reflexivity.
  - left. reflexivity.
Defined.

Lemma Config_source_profile_witness :
  res_config (Cases.run (Some Cases.roles) ∅ Scenario.h (Cases.named "admin"))
    = Some Cases.admin /\
  exists sp s,
    sourceProfile Cases.admin = Some sp /\ Name sp = SourceProfile Cases.admin /\
    (Ini.GetSection Cases.roles (SourceProfile Cases.admin) = inr s \/
     Ini.GetSection Cases.roles ("profile " +:+ SourceProfile Cases.admin) = inr s).
Proof.
  assert (Hc : res_config (Cases.run (Some Cases.roles) ∅ Scenario.h (Cases.named "admin"))
               = Some Cases.admin) by (vm_compute; reflexivity).
  split; [exact Hc|].
  apply (Config_source_profile
           (Ini.ini_Load {[ Scenario.conf := Cases.roles ]}) Ini.GetSection Ini.MapTo
           ∅ Scenario.h (Cases.named "admin") Cases.roles Cases.admin).
  - vm_compute. reflexivity.
  - vm_compute. reflexivity.
  - exact Hc.
  - discriminate.
  - discriminate.
Defined.

End SharedCfg.

(* ===================================================================== *)
(** * config/chain_loader.go *)
(* ===================================================================== *)

Module Chain.

(** Modelled from the spec: the declaration of [AwsConfig] of package
    config is not among the sources.  The fields are those of the spec's
    Profile record: name, region, source-profile name, role ARN, MFA
    serial, external ID, and the federation endpoint and client. *)
Record AwsConfig : Type := mkAwsConfig {
  ProfileName      : string;
  Region           : string;
  SrcProfile       : string;
  RoleArn          : string;
  MfaSerial        : string;
  ExternalId       : string;
  FederationUrl    : string;
  FederationClient : string
}.

(** Modelled from the spec: the declaration of [AwsCredentials] is not
    among the sources.  The fields are those of the spec's Credentials
    record; the expiration is in seconds since the epoch, 0 when unset. *)
Record AwsCredentials : Type := mkAwsCredentials {
  AccessKeyId     : string;
  SecretAccessKey : string;
  SessionToken    : string;
  Expiration      : Z
}.

(** [new(AwsConfig)] and [new(AwsCredentials)]. *)
Definition new_AwsConfig : AwsConfig := mkAwsConfig "" "" "" "" "" "" "" "".
Definition new_AwsCredentials : AwsCredentials := mkAwsCredentials "" "" "" 0.

(** A field of the merged record: the new value unless it is empty. *)
Definition merge_string (old new : string) : string :=
  if String.eqb new "" then old else new.

Definition merge_Z (old new : Z) : Z :=
  if Z.eqb new 0 then old else new.

(** Modelled from the spec: [AwsConfig.MergeIn] is not among the sources.
    The merge is field by field, and a non-empty field of the configuration
    merged in overwrites the receiver's.  Merging in nil changes nothing. *)
Definition MergeIn (c : AwsConfig) (n : option AwsConfig) : AwsConfig :=
  match n with
  | None => c
  | Some n =>
      mkAwsConfig (merge_string (ProfileName c) (ProfileName n))
                  (merge_string (Region c) (Region n))
                  (merge_string (SrcProfile c) (SrcProfile n))
                  (merge_string (RoleArn c) (RoleArn n))
                  (merge_string (MfaSerial c) (MfaSerial n))
                  (merge_string (ExternalId c) (ExternalId n))
                  (merge_string (FederationUrl c) (FederationUrl n))
                  (merge_string (FederationClient c) (FederationClient n))
  end.

(** Modelled from the spec: [AwsCredentials.MergeIn] is not among the
    sources; it merges as [AwsConfig.MergeIn] does. *)
Definition MergeInCredentials (c : AwsCredentials) (n : option AwsCredentials)
  : AwsCredentials :=
  match n with
  | None => c
  | Some n =>
      mkAwsCredentials (merge_string (AccessKeyId c) (AccessKeyId n))
                       (merge_string (SecretAccessKey c) (SecretAccessKey n))
                       (merge_string (SessionToken c) (SessionToken n))
                       (merge_Z (Expiration c) (Expiration n))
  end.

(** The [Loader] interface.  A method returns a pointer and an error, as
    in Go: the pointer is looked at only when the error is nil. *)
Record Loader (Source error : Type) : Type := mkLoader {
  Loader_Config      : string -> list Source -> option AwsConfig * option error;
  Loader_Credentials : string -> list Source -> option AwsCredentials * option error
}.
Arguments mkLoader {Source error}.
Arguments Loader_Config {Source error}.
Arguments Loader_Credentials {Source error}.

Record chainLoader (Source error : Type) : Type := mkChainLoader {
  loaders : list (Loader Source error)
}.
Arguments mkChainLoader {Source error}.
Arguments loaders {Source error}.

Definition NewChainLoader {Source error : Type} (chain : list (Loader Source error))
  : chainLoader Source error :=
  mkChainLoader chain.

Section ChainLoader.

Context {Source error : Type}.
Implicit Types (l : chainLoader Source error) (ldr : Loader Source error).
Implicit Types (profile : string) (sources : list Source).

(** One turn of the loop of [Config]: on an error the loader is skipped
    ([continue]), otherwise its result is merged in. *)
Definition Config_step profile sources (c : AwsConfig) ldr : AwsConfig :=
  match Loader_Config ldr profile sources with
  | (_, Some err) => c
  | (cf, None) => MergeIn c cf
  end.

Definition Config l profile sources : option AwsConfig * option error :=
  let c := new_AwsConfig in
  let c := fold_left (Config_step profile sources) (loaders l) c in
  (Some c, None).

Definition Credentials_step profile sources (c : AwsCredentials) ldr : AwsCredentials :=
  match Loader_Credentials ldr profile sources with
  | (_, Some err) => c
  | (cr, None) => MergeInCredentials c cr
  end.

Definition Credentials l profile sources : option AwsCredentials * option error :=
  let c := new_AwsCredentials in
  let c := fold_left (Credentials_step profile sources) (loaders l) c in
  (Some c, None).

(** A chain of loaders is a [Loader]. *)
Definition chainLoader_Loader l : Loader Source error :=
  mkLoader (Config l) (Credentials l).

(** ** The results the loop merges *)

(** The results of the loaders that returned no error, in the order of the
    chain: what a failing loader returned is dropped. *)
Definition loaded_configs profile sources (chain : list (Loader Source error))
  : list (option AwsConfig) :=
  flat_map (fun ldr => match Loader_Config ldr profile sources with
                       | (_, Some err) => []
                       | (cf, None) => [cf]
                       end) chain.

Definition loaded_credentials profile sources (chain : list (Loader Source error))
  : list (option AwsCredentials) :=
  flat_map (fun ldr => match Loader_Credentials ldr profile sources with
                       | (_, Some err) => []
                       | (cr, None) => [cr]
                       end) chain.

End ChainLoader.

(** The fields of a configuration. *)
Inductive Field : Type :=
| FProfileName | FRegion | FSrcProfile | FRoleArn
| FMfaSerial | FExternalId | FFederationUrl | FFederationClient.

Definition get (fld : Field) (c : AwsConfig) : string :=
  match fld with
  | FProfileName => ProfileName c
  | FRegion => Region c
  | FSrcProfile => SrcProfile c
  | FRoleArn => RoleArn c
  | FMfaSerial => MfaSerial c
  | FExternalId => ExternalId c
  | FFederationUrl => FederationUrl c
  | FFederationClient => FederationClient c
  end.

(** The value of one field after the configurations [cfs] have been merged
    in, in order, over [init]: the last non-empty one. *)
Definition merged_field (fld : Field) (cfs : list (option AwsConfig)) (init : string)
  : string :=
  fold_left (fun acc cf => match cf with
                           | Some n => merge_string acc (get fld n)
                           | None => acc
                           end) cfs init.

(** ** A chain to run

    The first loader knows the region, the second fails (what it returns
    beside its error is not looked at), the third returns nil without an
    error, and the last knows the role and another region. *)
Module Scenario.

Definition no_credentials : option AwsCredentials * option string :=
  (None, Some "no credentials").

Definition env_loader : Loader unit string :=
  mkLoader (fun _ _ => (Some (mkAwsConfig "" "us-east-1" "" "" "" "" "" ""), None))
           (fun _ _ => no_credentials).

Definition broken_loader : Loader unit string :=
  mkLoader (fun _ _ => (Some (mkAwsConfig "" "nowhere" "" "" "" "" "" ""),
                        Some "file missing"))
           (fun _ _ => no_credentials).

Definition silent_loader : Loader unit string :=
  mkLoader (fun _ _ => (None, None)) (fun _ _ => no_credentials).

Definition file_loader : Loader unit string :=
  mkLoader (fun profile _ =>
              (Some (mkAwsConfig profile "eu-west-1" "base" "arn:aws:iam::1:role/Admin"
                                 "" "" "" ""), None))
           (fun _ _ => (Some (mkAwsCredentials "AKIA" "secret" "" 0), None)).

Definition chain : list (Loader unit string) :=
  [env_loader; broken_loader; silent_loader; file_loader].

End Scenario.

(** ** The loop and the merge *)

Section ChainLoaderFacts.

Context {Source error : Type}.
Implicit Types (ldr bad : Loader Source error).
Implicit Types (chain before after : list (Loader Source error)).
Implicit Types (profile : string) (sources : list Source).

Lemma Config_loop_loaded profile sources chain c :
  fold_left (Config_step profile sources) chain c =
  fold_left MergeIn (loaded_configs profile sources chain) c.
Proof.
  revert c. induction chain as [|ldr chain IH]; intros c; [reflexivity|].
  cbn [fold_left loaded_configs flat_map]. rewrite fold_left_app, IH.
  unfold Config_step.
  destruct (Loader_Config ldr profile sources) as [cf [err|]]; reflexivity.
Qed.

Lemma Credentials_loop_loaded profile sources chain c :
  fold_left (Credentials_step profile sources) chain c =
  fold_left MergeInCredentials (loaded_credentials profile sources chain) c.
Proof.
  revert c. induction chain as [|ldr chain IH]; intros c; [reflexivity|].
  cbn [fold_left loaded_credentials flat_map]. rewrite fold_left_app, IH.
  unfold Credentials_step.
  destruct (Loader_Credentials ldr profile sources) as [cr [err|]]; reflexivity.
Qed.

(** A loader that fails can be taken out of the chain: the loaders before
    and after it are consulted all the same. *)
Lemma Config_skips_failure profile sources before bad after :
  snd (Loader_Config bad profile sources) <> None ->
  Config (NewChainLoader (before ++ bad :: after)) profile sources =
  Config (NewChainLoader (before ++ after)) profile sources.
Proof.
  intros Hbad. unfold Config, NewChainLoader; cbn [loaders].
  rewrite !fold_left_app. cbn [fold_left]. unfold Config_step at 2.
  destruct (Loader_Config bad profile sources) as [cf [err|]];
    [reflexivity | now destruct Hbad].
Qed.

Lemma Credentials_skips_failure profile sources before bad after :
  snd (Loader_Credentials bad profile sources) <> None ->
  Credentials (NewChainLoader (before ++ bad :: after)) profile sources =
  Credentials (NewChainLoader (before ++ after)) profile sources.
Proof.
  intros Hbad. unfold Credentials, NewChainLoader; cbn [loaders].
  rewrite !fold_left_app. cbn [fold_left]. unfold Credentials_step at 2.
  destruct (Loader_Credentials bad profile sources) as [cr [err|]];
    [reflexivity | now destruct Hbad].
Qed.

End ChainLoaderFacts.

Lemma MergeIn_get fld c n :
  get fld (MergeIn c (Some n)) = merge_string (get fld c) (get fld n).
Proof. destruct fld; reflexivity. Qed.

Lemma fold_MergeIn_get fld cfs c :
  get fld (fold_left MergeIn cfs c) = merged_field fld cfs (get fld c).
Proof.
  unfold merged_field. revert c.
  induction cfs as [|[n|] cfs IH]; intros c; cbn [fold_left].
  - reflexivity.
  - rewrite IH, MergeIn_get. reflexivity.
  - rewrite IH. reflexivity.
Qed.

Example Config_chain :
  Config (NewChainLoader Scenario.chain) "admin" [] =
    (Some (mkAwsConfig "admin" "eu-west-1" "base" "arn:aws:iam::1:role/Admin"
                       "" "" "" ""), None).
Proof. reflexivity. Qed.

Example Credentials_chain :
  Credentials (NewChainLoader Scenario.chain) "admin" [] =
    (Some (mkAwsCredentials "AKIA" "secret" "" 0), None).
Proof. reflexivity. Qed.

Example Config_all_fail :
  Config (NewChainLoader [Scenario.broken_loader; Scenario.broken_loader]) "admin" [] =
    (Some new_AwsConfig, None).
Proof. reflexivity. Qed.

(** ** Theorems *)

(** C2: [Config] and [Credentials] of a chain return a nil error and a
    non-nil result for every profile and every list of loaders, failing
    ones included.  The result is what merging the results of the loaders
    that did not fail gives, in the order of the chain and starting from
    the zero value; and each field of the merged configuration is the last
    non-empty value of that field among them. *)
Theorem chainLoader_never_fails :
  forall (Source error : Type) (chain : list (Loader Source error))
         (profile : string) (sources : list Source),
    let l := NewChainLoader chain in
    Config l profile sources =
      (Some (fold_left MergeIn (loaded_configs profile sources chain) new_AwsConfig),
       None) /\
    Credentials l profile sources =
      (Some (fold_left MergeInCredentials
               (loaded_credentials profile sources chain) new_AwsCredentials),
       None) /\
    (forall fld, exists c,
        fst (Config l profile sources) = Some c /\
        get fld c = merged_field fld (loaded_configs profile sources chain) "").
Proof.
  intros Source error chain profile sources l. subst l.
  unfold Config, Credentials, NewChainLoader; cbn [loaders].
  rewrite Config_loop_loaded, Credentials_loop_loaded.
  repeat split. intros fld. eexists. split; [reflexivity|].
  rewrite fold_MergeIn_get. destruct fld; reflexivity.
Qed.

(** C10: a chain of no loaders returns, for every profile, a non-nil
    configuration with every field unset and a nil error, and non-nil
    credentials with every field unset and a nil error. *)
Theorem chainLoader_empty_chain :
  forall (Source error : Type) (profile : string) (sources : list Source),
    let l := @NewChainLoader Source error [] in
    (exists c, Config l profile sources = (Some c, None) /\
               c = new_AwsConfig /\ forall fld, get fld c = "") /\
    (exists cr, Credentials l profile sources = (Some cr, None) /\
                cr = new_AwsCredentials /\
                AccessKeyId cr = "" /\ SecretAccessKey cr = "" /\
                SessionToken cr = "" /\ Expiration cr = 0%Z).
Proof.
  intros Source error profile sources l. split.
  - exists new_AwsConfig. repeat split. intros fld. destruct fld; reflexivity.
  - exists new_AwsCredentials. repeat split.
Qed.

(* --------------------------------------------------------------------- *)
(** ** The order of the chain *)
(* --------------------------------------------------------------------- *)

Section ChainOrder.

Context {Source error : Type}.
Implicit Types (ldr : Loader Source error) (chain : list (Loader Source error)).
Implicit Types (profile : string) (sources : list Source).

(** X8: the last loader has the last word.  A chain with one more loader
    at its end returns what the chain without it returns when that loader
    fails, and otherwise what the chain without it returns with the result
    of that loader merged in; so for [Credentials]. *)
Theorem chainLoader_append :
  forall chain ldr profile sources,
    Config (NewChainLoader (chain ++ [ldr])) profile sources =
      match Loader_Config ldr profile sources with
      | (_, Some _) => Config (NewChainLoader chain) profile sources
      | (cf, None) =>
          (option_map (fun c => MergeIn c cf)
                      (fst (Config (NewChainLoader chain) profile sources)), None)
      end /\
    Credentials (NewChainLoader (chain ++ [ldr])) profile sources =
      match Loader_Credentials ldr profile sources with
      | (_, Some _) => Credentials (NewChainLoader chain) profile sources
      | (cr, None) =>
          (option_map (fun c => MergeInCredentials c cr)
                      (fst (Credentials (NewChainLoader chain) profile sources)), None)
      end.
Proof.
  intros chain ldr profile sources.
  unfold Config, Credentials, NewChainLoader; cbn [loaders fst option_map].
  rewrite !fold_left_app. cbn [fold_left].
  unfold Config_step at 1. unfold Credentials_step at 1.
  destruct (Loader_Config ldr profile sources) as [cf [e|]];
    destruct (Loader_Credentials ldr profile sources) as [cr [e'|]]; split; reflexivity.
Qed.

(** X9: when every loader of the chain fails, [Config] returns the zero
    configuration and [Credentials] the zero credentials, each with a nil
    error. *)
Theorem chainLoader_all_fail :
  forall chain profile sources,
    Forall (fun ldr => snd (Loader_Config ldr profile sources) <> None) chain ->
    Forall (fun ldr => snd (Loader_Credentials ldr profile sources) <> None) chain ->
    Config (NewChainLoader chain) profile sources = (Some new_AwsConfig, None) /\
    Credentials (NewChainLoader chain) profile sources = (Some new_AwsCredentials, None).
Proof.
  intros chain profile sources Hc Hr.
  unfold Config, Credentials, NewChainLoader; cbn [loaders].
  generalize new_AwsConfig as c, new_AwsCredentials as cr.
  induction chain as [|ldr chain IH]; intros c cr; [split; reflexivity|].
  inversion Hc as [|? ? Hc1 Hc2]; inversion Hr as [|? ? Hr1 Hr2]; subst.
  cbn [fold_left]. unfold Config_step at 2. unfold Credentials_step at 2.
  destruct (Loader_Config ldr profile sources) as [cf [e|]]; [|now destruct Hc1].
  destruct (Loader_Credentials ldr profile sources) as [cr' [e'|]]; [|now destruct Hr1].
  apply IH; assumption.
Qed.

End ChainOrder.

Lemma chainLoader_all_fail_witness :
  Config (NewChainLoader [Scenario.broken_loader; Scenario.broken_loader]) "admin" []
    = (Some new_AwsConfig, None) /\
  Credentials (NewChainLoader [Scenario.broken_loader; Scenario.broken_loader]) "admin" []
    = (Some new_AwsCredentials, None).
Proof.
  apply (chainLoader_all_fail [Scenario.broken_loader; Scenario.broken_loader] "admin" []);
    repeat constructor; discriminate.
Defined.

(** X13: a failing loader is as good as absent.  Taking a loader whose
    [Config] fails out of a chain changes nothing to what [Config] of the
    chain returns, wherever the loader stood; so for [Credentials]. *)
Theorem chainLoader_skips_failure :
  forall (Source error : Type) (before after : list (Loader Source error))
         (bad : Loader Source error) (profile : string) (sources : list Source),
    (snd (Loader_Config bad profile sources) <> None ->
     Config (NewChainLoader (before ++ bad :: after)) profile sources =
     Config (NewChainLoader (before ++ after)) profile sources) /\
    (snd (Loader_Credentials bad profile sources) <> None ->
     Credentials (NewChainLoader (before ++ bad :: after)) profile sources =
     Credentials (NewChainLoader (before ++ after)) profile sources).
Proof.
  intros Source error before after bad profile sources. split.
  - apply Config_skips_failure.
  - apply Credentials_skips_failure.
Qed.

Lemma chainLoader_skips_failure_witness :
  Config (NewChainLoader ([Scenario.env_loader] ++ Scenario.broken_loader
                            :: [Scenario.silent_loader; Scenario.file_loader]))
         "admin" [] =
  Config (NewChainLoader ([Scenario.env_loader]
                            ++ [Scenario.silent_loader; Scenario.file_loader]))
         "admin" [] /\
  Credentials (NewChainLoader ([Scenario.file_loader] ++ Scenario.env_loader :: []))
              "admin" [] =
  Credentials (NewChainLoader ([Scenario.file_loader] ++ [])) "admin" [].
Proof.
  split.
  - apply (chainLoader_skips_failure unit string [Scenario.env_loader]
             [Scenario.silent_loader; Scenario.file_loader] Scenario.broken_loader
             "admin" []).
    discriminate.
  - apply (chainLoader_skips_failure unit string [Scenario.file_loader] []
             Scenario.env_loader "admin" []).
    discriminate.
Defined.

End Chain.

(* ===================================================================== *)
(** * metadata: adding and removing the address of the metadata service
      (linux) *)
(* ===================================================================== *)

Module Metadata.

(** A network interface, as far as the address management looks at it:
    its name and the addresses it holds. *)
Record Interface : Type := mkInterface {
  Name  : string;
  Addrs : list string
}.

(** The interfaces of the machine, in the order [net.Interfaces] lists
    them. *)
Abbreviation System := (list Interface).

Inductive error : Type :=
| ErrInterfaceNotFound
| ErrCommand (status : nat).

Definition holds (addr : string) (iface : Interface) : bool :=
  existsb (String.eqb addr) (Addrs iface).

(** Modelled from the spec: [findInterfaceByAddress] is not among the
    sources.  It locates the interface that currently holds the address,
    and fails with an interface-not-found error when none does. *)
Definition findInterfaceByAddress (sys : System) (addr : string) : error + Interface :=
  match List.find (holds addr) sys with
  | Some iface => inr iface
  | None => inl ErrInterfaceNotFound
  end.

(** What a goroutine does that others can see: it takes or releases the
    mutex [mu], or it runs an external command. *)
Inductive Event : Type :=
| EvLock
| EvUnlock
| EvCommand (cmd : list string).

(** The code of a function of the package, as the sequence of its
    operations on the shared state; [k] is the rest of the function. *)
Inductive Prog (A : Type) : Type :=
| Ret (a : A)
| MuLock (k : Prog A)
| MuUnlock (k : Prog A)
| FindInterface (addr : string) (k : error + Interface -> Prog A)
| DoCommand (cmd : list string) (k : option error -> Prog A).
Arguments Ret {A}.
Arguments MuLock {A}.
Arguments MuUnlock {A}.
Arguments FindInterface {A}.
Arguments DoCommand {A}.

Fixpoint bind {A B : Type} (p : Prog A) (f : A -> Prog B) : Prog B :=
  match p with
  | Ret a => f a
  | MuLock k => MuLock (bind k f)
  | MuUnlock k => MuUnlock (bind k f)
  | FindInterface addr k => FindInterface addr (fun r => bind (k r) f)
  | DoCommand cmd k => DoCommand cmd (fun e => bind (k e) f)
  end.

(** [mu.Lock(); defer mu.Unlock(); body]: the mutex is released when the
    function returns, whichever [return] it leaves by. *)
Definition locked {A : Type} (body : Prog A) : Prog A :=
  MuLock (bind body (fun r => MuUnlock (Ret r))).

(** [doCommand cmd] runs the command and returns its error. *)
Definition doCommand (cmd : list string) : Prog (option error) :=
  DoCommand cmd Ret.

Section Address.

(** The address of the metadata service and the same in CIDR form; the
    declarations of the two constants are not among the sources. *)
Variables DefaultEc2ImdsAddr DefaultEc2ImdsCidr : string.

Definition addAddress (iface : Interface) (cidrAddr : string) : Prog (option error) :=
  let cmd := ["ip"; "address"; "add"; cidrAddr; "dev"; Name iface] in
  doCommand cmd.

Definition removeAddress : Prog (option error) :=
  locked
    (FindInterface DefaultEc2ImdsAddr
       (fun r => match r with
                 | inl err => Ret (Some err)
                 | inr iface =>
                     let cmd := ["ip"; "address"; "del"; DefaultEc2ImdsCidr; "dev";
                                 Name iface] in
                     doCommand cmd
                 end)).

End Address.

(** ** Running the code *)

(** The shared state: the interfaces, whether the mutex is held, and what
    has happened so far, each event with the goroutine that did it (the
    latest event first). *)
Record State : Type := mkState {
  sys   : System;
  mu    : bool;
  trace : list (nat * Event)
}.

Definition initial (s : System) : State := mkState s false [].

Definition events (st : State) : list (nat * Event) := rev (trace st).

Section Run.

(** What running an external command does to the interfaces, and the
    error it returns. *)
Variable exec : list string -> System -> System * option error.

(** One operation of goroutine [tid].  There is no step when the function
    has returned, when it waits for the mutex, or when it unlocks a mutex
    that is not locked (a fatal error of the Go runtime). *)
Definition tstep {A : Type} (tid : nat) (p : Prog A) (st : State)
  : option (Prog A * State) :=
  match p with
  | Ret _ => None
  | MuLock k =>
      if mu st then None
      else Some (k, mkState (sys st) true ((tid, EvLock) :: trace st))
  | MuUnlock k =>
      if mu st then Some (k, mkState (sys st) false ((tid, EvUnlock) :: trace st))
      else None
  | FindInterface addr k =>
      Some (k (findInterfaceByAddress (sys st) addr), st)
  | DoCommand cmd k =>
      let (sys', e) := exec cmd (sys st) in
      Some (k e, mkState sys' (mu st) ((tid, EvCommand cmd) :: trace st))
  end.

(** A call that runs on its own: the result and the state it leaves, or
    nothing when it cannot go on. *)
Fixpoint run {A : Type} (tid : nat) (p : Prog A) (st : State) : option (A * State) :=
  match p with
  | Ret a => Some (a, st)
  | MuLock k =>
      if mu st then None
      else run tid k (mkState (sys st) true ((tid, EvLock) :: trace st))
  | MuUnlock k =>
      if mu st then run tid k (mkState (sys st) false ((tid, EvUnlock) :: trace st))
      else None
  | FindInterface addr k =>
      run tid (k (findInterfaceByAddress (sys st) addr)) st
  | DoCommand cmd k =>
      let (sys', e) := exec cmd (sys st) in
      run tid (k e) (mkState sys' (mu st) ((tid, EvCommand cmd) :: trace st))
  end.

(** Goroutines running together: goroutine [tid] is the [tid]-th of the
    pool, and a schedule is the list of the goroutines that take the next
    step, in order. *)
Definition pstep {A : Type} (tid : nat) (cfg : list (Prog A) * State)
  : option (list (Prog A) * State) :=
  let (pool, st) := cfg in
  match pool !! tid with
  | None => None
  | Some p =>
      match tstep tid p st with
      | None => None
      | Some (p', st') => Some (<[tid := p']> pool, st')
      end
  end.

Fixpoint schedule {A : Type} (tids : list nat) (cfg : list (Prog A) * State)
  : option (list (Prog A) * State) :=
  match tids with
  | [] => Some cfg
  | tid :: tids =>
      match pstep tid cfg with
      | None => None
      | Some cfg => schedule tids cfg
      end
  end.

End Run.

(** ** Commands under the mutex *)

(** The goroutine that holds the mutex after the events of a trace (the
    latest event first). *)
Fixpoint holder (tr : list (nat * Event)) : option nat :=
  match tr with
  | [] => None
  | (t, EvLock) :: _ => Some t
  | (_, EvUnlock) :: _ => None
  | (_, EvCommand _) :: tr => holder tr
  end.

Definition holds_mutex (t : nat) (tr : list (nat * Event)) : bool :=
  match holder tr with
  | Some u => Nat.eqb u t
  | None => false
  end.

(** Every command of the trace was run by the goroutine that held the
    mutex at that moment. *)
Fixpoint guarded (tr : list (nat * Event)) : bool :=
  match tr with
  | [] => true
  | (t, EvCommand _) :: tr => holds_mutex t tr && guarded tr
  | _ :: tr => guarded tr
  end.

(** A goroutine is inside the locked part of a call when what it has left
    to do starts after the lock and ends with the unlock. *)
Definition inside {A : Type} (p : Prog A) : bool :=
  match p with
  | Ret _ | MuLock _ => false
  | MuUnlock _ | FindInterface _ _ | DoCommand _ _ => true
  end.

Section RemovePoolInvariant.

Variables Addr Cidr : string.

(** Where a goroutine that called [removeAddress] can be. *)
Inductive phase : Prog (option error) -> Prop :=
| phase_start : phase (removeAddress Addr Cidr)
| phase_lookup :
    phase (FindInterface Addr
             (fun r => bind (match r with
                             | inl err => Ret (Some err)
                             | inr iface =>
                                 doCommand ["ip"; "address"; "del"; Cidr; "dev";
                                            Name iface]
                             end)
                            (fun r => MuUnlock (Ret r))))
| phase_command cmd :
    phase (DoCommand cmd (fun e => bind (Ret e) (fun r => MuUnlock (Ret r))))
| phase_unlock r : phase (MuUnlock (Ret r))
| phase_done r : phase (Ret r).

Definition pool_inv (cfg : list (Prog (option error)) * State) : Prop :=
  guarded (trace (snd cfg)) = true /\
  forall i p, fst cfg !! i = Some p ->
              phase p /\
              (inside p = true -> holder (trace (snd cfg)) = Some i /\ mu (snd cfg) = true).

End RemovePoolInvariant.

(** ** A machine to run the commands on

    [ip address add] gives the interface the address of the CIDR, and
    [ip address del] takes it away and fails when the interface does not
    hold it; both fail on an interface that does not exist. *)
Module Linux.

Fixpoint ip_of_cidr (cidr : string) : string :=
  match cidr with
  | EmptyString => EmptyString
  | String a rest => if Ascii.eqb a "/" then EmptyString else String a (ip_of_cidr rest)
  end.

Definition named (name : string) (iface : Interface) : bool :=
  String.eqb (Name iface) name.

Definition add_to (name addr : string) (iface : Interface) : Interface :=
  if named name iface then mkInterface (Name iface) (Addrs iface ++ [addr]) else iface.

Definition del_from (name addr : string) (iface : Interface) : Interface :=
  if named name iface
  then mkInterface (Name iface)
                   (List.filter (fun a => negb (String.eqb addr a)) (Addrs iface))
  else iface.

Definition exec (cmd : list string) (s : System) : System * option error :=
  match cmd with
  | [ip; address; verb; cidr; dev; name] =>
      if negb (String.eqb ip "ip" && String.eqb address "address"
               && String.eqb dev "dev")
      then (s, Some (ErrCommand 127))
      else if negb (existsb (named name) s) then (s, Some (ErrCommand 1))
      else if String.eqb verb "add"
      then (map (add_to name (ip_of_cidr cidr)) s, None)
      else if String.eqb verb "del"
      then if existsb (fun i => named name i && holds (ip_of_cidr cidr) i) s
           then (map (del_from name (ip_of_cidr cidr)) s, None)
           else (s, Some (ErrCommand 2))
      else (s, Some (ErrCommand 127))
  | _ => (s, Some (ErrCommand 127))
  end.

Definition Addr : string := "169.254.169.254".
Definition Cidr : string := "169.254.169.254/24".

Definition lo : Interface := mkInterface "lo" ["127.0.0.1"].
Definition eth0 : Interface := mkInterface "eth0" ["10.0.0.7"].

(** No interface holds the address of the metadata service. *)
Definition plain : System := [lo; eth0].

(** [lo] holds it. *)
Definition aliased : System := [mkInterface "lo" ["127.0.0.1"; Addr]; eth0].

End Linux.

(** ** What a call does to the mutex *)

Lemma findInterfaceByAddress_none (s : System) (addr : string) :
  (forall iface, In iface s -> holds addr iface = false) ->
  findInterfaceByAddress s addr = inl ErrInterfaceNotFound.
Proof.
  intros Hnone. unfold findInterfaceByAddress.
  destruct (List.find (holds addr) s) as [iface|] eqn:Hf; [|reflexivity].
  apply find_some in Hf as [Hin Hh]. rewrite (Hnone _ Hin) in Hh. discriminate.
Qed.

Lemma findInterfaceByAddress_found (s : System) (addr : string) (iface : Interface) :
  findInterfaceByAddress s addr = inr iface ->
  In iface s /\ holds addr iface = true.
Proof.
  unfold findInterfaceByAddress.
  destruct (List.find (holds addr) s) as [i|] eqn:Hf; [|discriminate].
  intros [= <-]. now apply find_some in Hf.
Qed.

(** Running a call is taking its steps one after the other. *)
Lemma run_tstep {A : Type} exec tid (p p' : Prog A) (st st' : State) :
  tstep exec tid p st = Some (p', st') -> run exec tid p st = run exec tid p' st'.
Proof.
  destruct p as [a|k|k|addr k|cmd k]; cbn.
  - discriminate.
  - destruct (mu st); [discriminate|]. now intros [= <- <-].
  - destruct (mu st); [|discriminate]. now intros [= <- <-].
  - now intros [= <- <-].
  - destruct (exec cmd (sys st)) as [s' e]. now intros [= <- <-].
Qed.

Lemma run_stuck {A : Type} exec tid (p : Prog A) (st : State) :
  tstep exec tid p st = None ->
  run exec tid p st = match p with Ret a => Some (a, st) | _ => None end.
Proof.
  destruct p as [a|k|k|addr k|cmd k]; cbn; try reflexivity.
  - destruct (mu st); [reflexivity | discriminate].
  - destruct (mu st); [discriminate | reflexivity].
  - discriminate.
  - destruct (exec cmd (sys st)); discriminate.
Qed.

(** [removeAddress], run on its own with the mutex free: it takes the
    mutex first and releases it last, on the path that returns the error
    of the lookup as on the path that runs the command. *)
Lemma removeAddress_run Addr Cidr exec tid (s : System) :
  run exec tid (removeAddress Addr Cidr) (initial s) =
    match findInterfaceByAddress s Addr with
    | inl err =>
        Some (Some err, mkState s false [(tid, EvUnlock); (tid, EvLock)])
    | inr iface =>
        let cmd := ["ip"; "address"; "del"; Cidr; "dev"; Name iface] in
        Some (snd (exec cmd s),
              mkState (fst (exec cmd s)) false
                      [(tid, EvUnlock); (tid, EvCommand cmd); (tid, EvLock)])
    end.
Proof.
  unfold removeAddress, locked, initial; cbn.
  destruct (findInterfaceByAddress s Addr) as [err|iface]; cbn; [reflexivity|].
  destruct (exec _ s) as [s' e]; reflexivity.
Qed.

(** While another goroutine holds the mutex, [removeAddress] waits. *)
Lemma removeAddress_waits Addr Cidr exec tid (st : State) :
  mu st = true ->
  tstep exec tid (removeAddress Addr Cidr) st = None /\
  run exec tid (removeAddress Addr Cidr) st = None.
Proof. intros Hmu. unfold removeAddress, locked; cbn. rewrite Hmu. auto. Qed.

(** [addAddress] runs its command at once, whether or not the mutex is
    held, and does not touch the mutex. *)
Lemma addAddress_run exec tid (iface : Interface) (cidrAddr : string) (st : State) :
  let cmd := ["ip"; "address"; "add"; cidrAddr; "dev"; Name iface] in
  run exec tid (addAddress iface cidrAddr) st =
    Some (snd (exec cmd (sys st)),
          mkState (fst (exec cmd (sys st))) (mu st)
                  ((tid, EvCommand cmd) :: trace st)).
Proof.
  unfold addAddress, doCommand; cbn. destruct (exec _ (sys st)); reflexivity.
Qed.

(** ** Calls of [removeAddress] running together *)

Section RemovePool.

Variables Addr Cidr : string.
Variable exec : list string -> System -> System * option error.

Lemma pool_inv_initial (n : nat) (s : System) :
  pool_inv Addr Cidr (repeat (removeAddress Addr Cidr) n, initial s).
Proof.
  split; [reflexivity|]. cbn [fst snd]. intros i p Hp.
  assert (p = removeAddress Addr Cidr) as ->.
  { apply (repeat_spec n). apply list_elem_of_In. eapply list_elem_of_lookup_2, Hp. }
  split; [constructor | discriminate].
Qed.

Lemma holds_mutex_holder t tr : holder tr = Some t -> holds_mutex t tr = true.
Proof. unfold holds_mutex. intros ->. apply Nat.eqb_refl. Qed.

Lemma pool_inv_step tid cfg cfg' :
  pool_inv Addr Cidr cfg -> pstep exec tid cfg = Some cfg' -> pool_inv Addr Cidr cfg'.
Proof.
  destruct cfg as [pool st]. intros [Hg Hpool]. cbn [fst snd] in *.
  unfold pstep. destruct (pool !! tid) as [p|] eqn:Hp; [|discriminate].
  destruct (Hpool _ _ Hp) as [Hph Hin].
  destruct (tstep exec tid p st) as [[p' st']|] eqn:Hs; [|discriminate].
  intros [= <-]. unfold pool_inv. cbn [fst snd].
  assert (Hothers : forall j q, j <> tid -> pool !! j = Some q ->
                                inside q = true -> holder (trace st) = Some tid -> False).
  { intros j q Hj Hq Hq' Hh. destruct (Hpool _ _ Hq) as [_ Hq2].
    destruct (Hq2 Hq') as [Hh' _]. congruence. }
  assert (Hlook : forall j q, (<[tid := p']> pool) !! j = Some q ->
                              (j = tid /\ q = p') \/ (j <> tid /\ pool !! j = Some q)).
  { intros j q Hq. destruct (decide (tid = j)) as [<-|Hne].
    - left. rewrite list_lookup_insert_eq in Hq by (eapply lookup_lt_Some, Hp).
      split; congruence.
    - right. rewrite list_lookup_insert_ne in Hq by assumption. auto. }
  destruct Hph; cbn in Hs.
  - (* the lock is taken *)
    destruct (mu st) eqn:Hmu; [discriminate|]. injection Hs as <- <-.
    split; [exact Hg|]. intros j q Hq. cbn [trace mu holder].
    destruct (Hlook _ _ Hq) as [[-> ->]|[Hne Hq']].
    + split; [constructor | auto].
    + destruct (Hpool _ _ Hq') as [Hph' Hin']. split; [assumption|].
      intros Hi. destruct (Hin' Hi) as [_ Hm]. congruence.
  - (* the lookup *)
    injection Hs as <- <-. destruct (Hin eq_refl) as [Hh Hm].
    split; [exact Hg|]. intros j q Hq.
    destruct (Hlook _ _ Hq) as [[-> ->]|[Hne Hq']].
    + split; [|auto].
      destruct (findInterfaceByAddress (sys st) Addr); cbn; constructor.
    + apply Hpool. assumption.
  - (* the command *)
    destruct (exec cmd (sys st)) as [s' e]. injection Hs as <- <-.
    destruct (Hin eq_refl) as [Hh Hm]. cbn [trace mu guarded holder].
    split; [rewrite (holds_mutex_holder _ _ Hh), Hg; reflexivity|].
    intros j q Hq. destruct (Hlook _ _ Hq) as [[-> ->]|[Hne Hq']].
    + split; [constructor | auto].
    + apply Hpool. assumption.
  - (* the unlock *)
    destruct (mu st) eqn:Hmu; [|discriminate]. injection Hs as <- <-.
    destruct (Hin eq_refl) as [Hh _]. cbn [trace mu guarded holder].
    split; [exact Hg|]. intros j q Hq.
    destruct (Hlook _ _ Hq) as [[-> ->]|[Hne Hq']].
    + split; [constructor | discriminate].
    + destruct (Hpool _ _ Hq') as [Hph' Hin']. split; [assumption|].
      intros Hi. exfalso. eapply Hothers; eauto.
  - discriminate.
Qed.

Lemma pool_inv_schedule tids cfg cfg' :
  pool_inv Addr Cidr cfg -> schedule exec tids cfg = Some cfg' -> pool_inv Addr Cidr cfg'.
Proof.
  revert cfg. induction tids as [|tid tids IH]; intros cfg Hinv; cbn.
  - now intros [= <-].
  - destruct (pstep exec tid cfg) as [cfg1|] eqn:Hs; [|discriminate].
    apply IH. eapply pool_inv_step; eassumption.
Qed.

(** However many calls of [removeAddress] run together and however they
    are scheduled, every command is run by the goroutine that holds the
    mutex. *)
Lemma removeAddress_pool_guarded (n : nat) (s : System) tids cfg' :
  schedule exec tids (repeat (removeAddress Addr Cidr) n, initial s) = Some cfg' ->
  guarded (trace (snd cfg')) = true.
Proof.
  intros Hs. eapply pool_inv_schedule in Hs; [apply Hs | apply pool_inv_initial].
Qed.

End RemovePool.

(** ** Theorems *)

(** C7: when no interface holds the address of the metadata service,
    [removeAddress] returns the interface-not-found error, has run no
    command and leaves the interfaces as they were.  And whatever the
    interfaces are, a command [removeAddress] has run is the removal of
    the address from the interface the lookup found, which is one of the
    interfaces of the machine and holds the address. *)
Theorem removeAddress_interface_not_found :
  forall (Addr Cidr : string) (exec : list string -> System -> System * option error)
         (tid : nat) (s : System),
    ((forall iface, In iface s -> holds Addr iface = false) ->
     exists st',
       run exec tid (removeAddress Addr Cidr) (initial s)
         = Some (Some ErrInterfaceNotFound, st') /\
       sys st' = s /\
       forall t cmd, ~ In (t, EvCommand cmd) (events st')) /\
    (forall r st' t cmd,
        run exec tid (removeAddress Addr Cidr) (initial s) = Some (r, st') ->
        In (t, EvCommand cmd) (events st') ->
        exists iface,
          findInterfaceByAddress s Addr = inr iface /\
          In iface s /\ holds Addr iface = true /\
          cmd = ["ip"; "address"; "del"; Cidr; "dev"; Name iface]).
Proof.
  intros Addr Cidr exec tid s. rewrite removeAddress_run. split.
  - intros Hnone. rewrite (findInterfaceByAddress_none _ _ Hnone).
    eexists. split; [reflexivity|]. split; [reflexivity|].
    intros t cmd [H|[H|[]]]; discriminate.
  - intros r st' t cmd.
    destruct (findInterfaceByAddress s Addr) as [err|iface] eqn:Hf.
    + intros [= _ <-] [H|[H|[]]]; discriminate.
    + intros [= _ <-] Hin. exists iface.
      destruct (findInterfaceByAddress_found _ _ _ Hf) as [Hi Hh].
      repeat split; try assumption.
      cbn in Hin. destruct Hin as [H|[H|[H|[]]]]; try discriminate.
      now inversion H.
Qed.

Lemma removeAddress_interface_not_found_witness :
  (exists st',
      run Linux.exec 0 (removeAddress Linux.Addr Linux.Cidr) (initial Linux.plain)
        = Some (Some ErrInterfaceNotFound, st') /\
      sys st' = Linux.plain /\
      forall t cmd, ~ In (t, EvCommand cmd) (events st')) /\
  (exists iface,
      findInterfaceByAddress Linux.aliased Linux.Addr = inr iface /\
      In iface Linux.aliased /\ holds Linux.Addr iface = true /\
      ["ip"; "address"; "del"; Linux.Cidr; "dev"; "lo"]
        = ["ip"; "address"; "del"; Linux.Cidr; "dev"; Name iface]).
Proof.
  split.
  - apply (removeAddress_interface_not_found Linux.Addr Linux.Cidr Linux.exec 0
             Linux.plain).
    intros iface [<-|[<-|[]]]; reflexivity.
  - eapply (removeAddress_interface_not_found Linux.Addr Linux.Cidr Linux.exec 0
              Linux.aliased) with (t := 0).
    + vm_compute. reflexivity.
    + vm_compute. right. left. reflexivity.
Defined.

(** C8: the add operation does not hold the mutex.  A call of
    [addAddress] consists of its command alone: it neither locks nor
    unlocks, so the command is run by a goroutine that does not hold the
    mutex.  Run beside a call of [removeAddress], it adds the address to
    [eth0] after [removeAddress] has locked the mutex and looked up the
    interface and before it has run its removal and unlocked. *)
Theorem addAddress_outside_mutex :
  (forall (exec : list string -> System -> System * option error) (tid : nat)
          (iface : Interface) (cidrAddr : string) (s : System),
      exists r st',
        run exec tid (addAddress iface cidrAddr) (initial s) = Some (r, st') /\
        events st' = [(tid, EvCommand ["ip"; "address"; "add"; cidrAddr; "dev";
                                       Name iface])] /\
        guarded (trace st') = false) /\
  (exists pool' st',
      schedule Linux.exec [0; 0; 1; 0; 0]
               ([removeAddress Linux.Addr Linux.Cidr;
                 addAddress Linux.eth0 Linux.Cidr], initial Linux.aliased)
        = Some (pool', st') /\
      events st' =
        [(0, EvLock);
         (1, EvCommand ["ip"; "address"; "add"; Linux.Cidr; "dev"; "eth0"]);
         (0, EvCommand ["ip"; "address"; "del"; Linux.Cidr; "dev"; "lo"]);
         (0, EvUnlock)] /\
      guarded (trace st') = false).
Proof.
  split.
  - intros exec tid iface cidrAddr s. rewrite addAddress_run.
    eexists _, _. split; [reflexivity|]. split; reflexivity.
  - eexists _, _. split; [vm_compute; reflexivity|]. split; reflexivity.
Qed.

(* --------------------------------------------------------------------- *)
(** ** Calls of [removeAddress]: they return, and they release the mutex *)
(* --------------------------------------------------------------------- *)

Definition finished {A : Type} (p : Prog A) : bool :=
  match p with
  | Ret _ => true
  | _ => false
  end.

(** The operations a call of [removeAddress] has left at most, by where it
    is: lock, lookup, command, unlock. *)
Definition remaining {A : Type} (p : Prog A) : nat :=
  match p with
  | MuLock _ => 4
  | FindInterface _ _ => 3
  | DoCommand _ _ => 2
  | MuUnlock _ => 1
  | Ret _ => 0
  end.

Definition work {A : Type} (pool : list (Prog A)) : nat :=
  list_sum (map remaining pool).

(** The commands of a trace. *)
Definition commands (tr : list (nat * Event)) : list (list string) :=
  flat_map (fun ev => match snd ev with
                      | EvCommand cmd => [cmd]
                      | _ => []
                      end) tr.

(** Two calls of [removeAddress] on a machine where [lo] holds the
    address, one after the other, and where they end. *)
Definition two_removes : list (Prog (option error)) * State :=
  (repeat (removeAddress Linux.Addr Linux.Cidr) 2, initial Linux.aliased).

Definition two_removes_end : list (Prog (option error)) * State :=
  Eval vm_compute in
    match schedule Linux.exec [0; 0; 0; 0; 1; 1; 1] two_removes with
    | Some cfg => cfg
    | None => two_removes
    end.

(** The first call has locked and looked up; the second waits. *)
Definition two_removes_middle : list (Prog (option error)) * State :=
  Eval vm_compute in
    match schedule Linux.exec [0; 0] two_removes with
    | Some cfg => cfg
    | None => two_removes
    end.

Section RemovePoolLive.

Variables Addr Cidr : string.
Variable exec : list string -> System -> System * option error.

(** When the mutex is held, a goroutine of the pool is inside the locked
    part of its call. *)
Definition pool_live (cfg : list (Prog (option error)) * State) : Prop :=
  pool_inv Addr Cidr cfg /\
  (mu (snd cfg) = true -> exists i p, fst cfg !! i = Some p /\ inside p = true).

Lemma pool_live_initial (n : nat) (s : System) :
  pool_live (repeat (removeAddress Addr Cidr) n, initial s).
Proof. split; [apply pool_inv_initial | discriminate]. Qed.

Lemma phase_tstep tid p st p' st' :
  phase Addr Cidr p -> tstep exec tid p st = Some (p', st') ->
  (mu st' = true -> inside p' = true) /\ remaining p' < remaining p.
Proof.
  intros Hph Hs. destruct Hph; cbn in Hs.
  - destruct (mu st); [discriminate|]. injection Hs as <- <-. cbn. split; [auto | lia].
  - injection Hs as <- <-.
    destruct (findInterfaceByAddress (sys st) Addr); cbn; split; auto; lia.
  - destruct (exec cmd (sys st)) as [s' e]. injection Hs as <- <-. cbn. split; [auto | lia].
  - destruct (mu st); [|discriminate]. injection Hs as <- <-. cbn.
    split; [discriminate | lia].
  - discriminate.
Qed.

Lemma pool_live_step tid cfg cfg' :
  pool_live cfg -> pstep exec tid cfg = Some cfg' -> pool_live cfg'.
Proof.
  intros [Hinv Hlive] Hs. split; [eapply pool_inv_step; eassumption|].
  destruct cfg as [pool st]. unfold pstep in Hs.
  destruct (pool !! tid) as [p|] eqn:Hp; [|discriminate].
  destruct (tstep exec tid p st) as [[p' st']|] eqn:Ht; [|discriminate].
  injection Hs as <-. cbn [fst snd]. intros Hmu. exists tid, p'. split.
  - apply list_lookup_insert_eq. eapply lookup_lt_Some, Hp.
  - destruct Hinv as [_ Hpool]. destruct (Hpool _ _ Hp) as [Hph _].
    now apply (phase_tstep _ _ _ _ _ Hph Ht).
Qed.

Lemma pool_live_schedule tids cfg cfg' :
  pool_live cfg -> schedule exec tids cfg = Some cfg' -> pool_live cfg'.
Proof.
  revert cfg. induction tids as [|tid tids IH]; intros cfg Hinv; cbn.
  - now intros [= <-].
  - destruct (pstep exec tid cfg) as [cfg1|] eqn:Hs; [|discriminate].
    apply IH. eapply pool_live_step; eassumption.
Qed.

(** Either every element of a list is finished or one of them is still
    to start, when each is one or the other. *)
Lemma finished_or_waiting (pool : list (Prog (option error))) :
  (forall i p, pool !! i = Some p -> finished p = true \/ p = removeAddress Addr Cidr) ->
  Forall (fun p => finished p = true) pool \/
  exists i, pool !! i = Some (removeAddress Addr Cidr).
Proof.
  induction pool as [|p pool IH]; intros H; [left; constructor|].
  destruct (H 0%nat p eq_refl) as [Hf| ->]; [|right; now exists 0%nat].
  destruct IH as [Hall|[i Hi]].
  - intros i q Hq. apply (H (S i)). exact Hq.
  - left. now constructor.
  - right. now exists (S i).
Qed.

Lemma work_insert (pool : list (Prog (option error))) i p p' :
  pool !! i = Some p -> remaining p' < remaining p ->
  work (<[i := p']> pool) < work pool.
Proof.
  unfold work. revert i. induction pool as [|q pool IH]; intros [|i] Hp Hlt; try discriminate.
  - injection Hp as ->. cbn -[remaining]. lia.
  - cbn -[remaining] in Hp |- *. apply (proj1 (Nat.add_lt_mono_l _ _ _)).
    exact (IH i Hp Hlt).
Qed.

Lemma work_step tid cfg cfg' :
  pool_live cfg -> pstep exec tid cfg = Some cfg' -> work (fst cfg') < work (fst cfg).
Proof.
  intros [[_ Hpool] _] Hs. destruct cfg as [pool st]. unfold pstep in Hs.
  destruct (pool !! tid) as [p|] eqn:Hp; [|discriminate].
  destruct (tstep exec tid p st) as [[p' st']|] eqn:Ht; [|discriminate].
  injection Hs as <-. cbn [fst]. apply (work_insert _ _ p); [exact Hp|].
  destruct (Hpool _ _ Hp) as [Hph _]. now apply (phase_tstep _ _ _ _ _ Hph Ht).
Qed.

Lemma work_schedule tids cfg cfg' :
  pool_live cfg -> schedule exec tids cfg = Some cfg' ->
  length tids + work (fst cfg') <= work (fst cfg).
Proof.
  revert cfg. induction tids as [|tid tids IH]; intros cfg Hinv; cbn [schedule length].
  - intros [= <-]. lia.
  - destruct (pstep exec tid cfg) as [cfg1|] eqn:Hs; [|discriminate].
    intros Hrest. pose proof (work_step _ _ _ Hinv Hs).
    specialize (IH cfg1 (pool_live_step _ _ _ Hinv Hs) Hrest). lia.
Qed.

Lemma work_initial (n : nat) : work (repeat (removeAddress Addr Cidr) n) = 4 * n.
Proof.
  unfold work, list_sum. induction n as [|n IH]; [reflexivity|].
  cbn [repeat map fold_right]. rewrite IH.
  change (remaining (removeAddress Addr Cidr)) with 4. lia.
Qed.

(** X11: calls of [removeAddress] never block one another for good.
    However many run together and however far a schedule has taken them,
    either all of them have returned, and then the mutex is free, or one
    of them can take its next step. *)
Theorem removeAddress_pool_progress :
  forall (n : nat) (s : System) tids cfg',
    schedule exec tids (repeat (removeAddress Addr Cidr) n, initial s) = Some cfg' ->
    (Forall (fun p => finished p = true) (fst cfg') /\ mu (snd cfg') = false) \/
    exists tid cfg'', pstep exec tid cfg' = Some cfg''.
Proof.
  intros n s tids [pool st] Hs.
  apply (pool_live_schedule _ _ _ (pool_live_initial n s)) in Hs as [[_ Hpool] Hlive].
  cbn [fst snd] in *. destruct (mu st) eqn:Hmu.
  - right. destruct (Hlive eq_refl) as (i & p & Hp & Hin).
    destruct (Hpool _ _ Hp) as [Hph _]. exists i. unfold pstep. rewrite Hp.
    destruct Hph; try discriminate; cbn.
    + eexists. reflexivity.
    + destruct (exec cmd (sys st)). eexists. reflexivity.
    + rewrite Hmu. eexists. reflexivity.
  - destruct (finished_or_waiting pool) as [Hall|[i Hi]].
    + intros i p Hp. destruct (Hpool _ _ Hp) as [Hph Hin].
      destruct Hph; auto; destruct (Hin eq_refl) as [_ Hm]; congruence.
    + left. auto.
    + right. exists i. unfold pstep. rewrite Hi. cbn. rewrite Hmu.
      eexists. reflexivity.
Qed.

(** X12: a call of [removeAddress] takes at most four steps: a schedule
    that [n] calls can follow has at most [4 * n] steps, less the steps the
    calls still have to take. *)
Theorem removeAddress_pool_bound :
  forall (n : nat) (s : System) tids cfg',
    schedule exec tids (repeat (removeAddress Addr Cidr) n, initial s) = Some cfg' ->
    length tids + work (fst cfg') <= 4 * n.
Proof.
  intros n s tids cfg' Hs.
  apply (work_schedule _ _ _ (pool_live_initial n s)) in Hs.
  cbn [fst] in Hs. now rewrite work_initial in Hs.
Qed.

End RemovePoolLive.

(** X10: a call of [removeAddress] that finds the mutex free returns.
    When it does the mutex is free again, it has run one command at most,
    between taking and releasing the mutex, and what it returns is the
    error of the lookup, or else the error of the command, the interfaces
    being what the command left. *)
Theorem removeAddress_returns :
  forall (Addr Cidr : string) (exec : list string -> System -> System * option error)
         (tid : nat) (s : System),
    exists r st' mid,
      run exec tid (removeAddress Addr Cidr) (initial s) = Some (r, st') /\
      mu st' = false /\
      events st' = (tid, EvLock) :: mid ++ [(tid, EvUnlock)] /\
      length mid <= 1 /\ guarded (trace st') = true /\
      match findInterfaceByAddress s Addr with
      | inl err => r = Some err /\ sys st' = s /\ commands (trace st') = []
      | inr iface =>
          let cmd := ["ip"; "address"; "del"; Cidr; "dev"; Name iface] in
          r = snd (exec cmd s) /\ sys st' = fst (exec cmd s) /\
          commands (trace st') = [cmd]
      end.
Proof.
  intros Addr Cidr exec tid s. rewrite removeAddress_run.
  destruct (findInterfaceByAddress s Addr) as [err|iface].
  - eexists _, _, []. do 3 (split; [reflexivity|]).
    split; [cbn; lia|]. repeat split.
  - eexists _, _, [_]. do 3 (split; [reflexivity|]).
    split; [cbn; lia|]. split; [|repeat split].
    cbn [trace guarded holder holds_mutex]. now rewrite Nat.eqb_refl.
Qed.

(** X14: calls of [removeAddress] exclude one another.  However many run
    together and however they are scheduled, at most one goroutine is
    between its lock and its unlock, it is the one that took the mutex
    last, and every command has been run by the goroutine holding the
    mutex. *)
Theorem removeAddress_mutual_exclusion :
  forall (Addr Cidr : string) (exec : list string -> System -> System * option error)
         (n : nat) (s : System) tids cfg',
    schedule exec tids (repeat (removeAddress Addr Cidr) n, initial s) = Some cfg' ->
    guarded (trace (snd cfg')) = true /\
    forall i j p q,
      fst cfg' !! i = Some p -> fst cfg' !! j = Some q ->
      inside p = true -> inside q = true ->
      i = j /\ holder (trace (snd cfg')) = Some i /\ mu (snd cfg') = true.
Proof.
  intros Addr Cidr exec n s tids cfg' Hs.
  apply (pool_inv_schedule Addr Cidr exec _ _ _ (pool_inv_initial Addr Cidr n s))
    in Hs as [Hg Hpool].
  split; [exact Hg|]. intros i j p q Hp Hq Hip Hiq.
  destruct (Hpool _ _ Hp) as [_ Hi]. destruct (Hpool _ _ Hq) as [_ Hj].
  destruct (Hi Hip) as [Hhi Hm]. destruct (Hj Hiq) as [Hhj _].
  repeat split; congruence.
Qed.

Lemma removeAddress_mutual_exclusion_witness :
  pstep Linux.exec 1 two_removes_middle = None /\
  guarded (trace (snd two_removes_middle)) = true /\
  forall i j p q,
    fst two_removes_middle !! i = Some p -> fst two_removes_middle !! j = Some q ->
    inside p = true -> inside q = true ->
    i = j /\ holder (trace (snd two_removes_middle)) = Some i /\
    mu (snd two_removes_middle) = true.
Proof.
  split; [vm_compute; reflexivity|].
  apply (removeAddress_mutual_exclusion Linux.Addr Linux.Cidr Linux.exec 2
           Linux.aliased [0; 0] two_removes_middle).
  vm_compute. reflexivity.
Defined.

Lemma removeAddress_pool_progress_witness :
  (Forall (fun p => finished p = true) (fst two_removes_end) /\
   mu (snd two_removes_end) = false) \/
  exists tid cfg'', pstep Linux.exec tid two_removes_end = Some cfg''.
Proof.
  apply (removeAddress_pool_progress Linux.Addr Linux.Cidr Linux.exec 2 Linux.aliased
           [0; 0; 0; 0; 1; 1; 1] two_removes_end).
  vm_compute. reflexivity.
Defined.

Lemma removeAddress_pool_bound_witness :
  length [0; 0; 0; 0; 1; 1; 1] + work (fst two_removes_end) <= 4 * 2.
Proof.
  apply (removeAddress_pool_bound Linux.Addr Linux.Cidr Linux.exec 2 Linux.aliased
           [0; 0; 0; 0; 1; 1; 1] two_removes_end).
  vm_compute. reflexivity.
Defined.

End Metadata.

(* ===================================================================== *)
(** * lib/assume_role_provider: the duration policy and the constructor *)
(* ===================================================================== *)

Module AssumeRole.

Local Open Scope Z_scope.

Section Duration.

(** The three constants of the duration policy, in whole seconds; their
    declarations are not among the sources. *)
Variables ASSUME_ROLE_DEFAULT_DURATION ASSUME_ROLE_MIN_DURATION
          ASSUME_ROLE_MAX_DURATION : Z.

(** Modelled from the spec: [validateDuration] is not among the sources
    (its test is).  A duration of zero gives the default; one below the
    minimum is raised to the minimum; one above the maximum is lowered to
    the maximum; any other is returned as it is.  Durations are in whole
    seconds. *)
Definition validateDuration (d : Z) : Z :=
  if d =? 0 then ASSUME_ROLE_DEFAULT_DURATION
  else if d <? ASSUME_ROLE_MIN_DURATION then ASSUME_ROLE_MIN_DURATION
  else if ASSUME_ROLE_MAX_DURATION <? d then ASSUME_ROLE_MAX_DURATION
  else d.

End Duration.

(** Modelled from the spec: the declaration of [AWSProfile] is not among
    the sources; the fields are those of the spec's Profile record. *)
Record AWSProfile : Type := mkAWSProfile {
  Name          : string;
  Region        : string;
  RoleArn       : string;
  SourceProfile : string;
  MfaSerial     : string;
  ExternalId    : string
}.

(** [new(AWSProfile)]. *)
Definition new_AWSProfile : AWSProfile := mkAWSProfile "" "" "" "" "" "".

Record CachedCredentialsProviderOptions : Type := mkOptions {
  LogLevel : nat
}.

Record assumeRoleProvider : Type := mkProvider {
  profile : AWSProfile;
  options : option CachedCredentialsProviderOptions
}.

(** A call either returns or panics. *)
Inductive outcome (A : Type) : Type :=
| Returned (a : A)
| Panicked (msg : string).
Arguments Returned {A}.
Arguments Panicked {A}.

(** Modelled from the spec: [NewAssumeRoleProvider] is not among the
    sources (its test is).  A nil profile is a violated precondition and
    the constructor panics; with a profile it returns a provider for it,
    the options being optional. *)
Definition NewAssumeRoleProvider (p : option AWSProfile)
           (opts : option CachedCredentialsProviderOptions)
  : outcome assumeRoleProvider :=
  match p with
  | None => Panicked "invalid profile argument"
  | Some p => Returned (mkProvider p opts)
  end.

Definition panics {A : Type} (o : outcome A) : bool :=
  match o with
  | Panicked _ => true
  | Returned _ => false
  end.

(** ** The cases of the test *)

Definition hour : Z := 3600.
Definition minute : Z := 60.

(** With a default of one hour, a minimum of 15 minutes and a maximum of
    12 hours. *)
Definition validate : Z -> Z := validateDuration (1 * hour) (15 * minute) (12 * hour).

Example DurationZero : validate 0 = 1 * hour.
Proof. reflexivity. Qed.

Example DurationHigh : validate (72 * hour) = 12 * hour.
Proof. reflexivity. Qed.

Example DurationLow : validate (5 * minute) = 15 * minute.
Proof. reflexivity. Qed.

Example DurationNormal : validate (2 * hour) = 2 * hour.
Proof. reflexivity. Qed.

(** A negative duration is below the minimum, and is raised to it. *)
Lemma validateDuration_negative dflt min max d :
  d < 0 -> 0 <= min -> validateDuration dflt min max d = min.
Proof.
  intros Hd Hmin. unfold validateDuration.
  destruct (Z.eqb_spec d 0); [lia|].
  destruct (Z.ltb_spec d min); [reflexivity | lia].
Qed.

(** ** Theorems *)




(** C6: constructing the provider with a nil profile panics, whatever the
    options are; with a profile the constructor returns a provider for
    that profile, with options and with nil options. *)
Theorem NewAssumeRoleProvider_profile_required :
  (forall opts, panics (NewAssumeRoleProvider None opts) = true) /\
  (forall p opts, exists prov,
      NewAssumeRoleProvider (Some p) opts = Returned prov /\ profile prov = p) /\
  (exists prov,
      NewAssumeRoleProvider (Some new_AWSProfile) None = Returned prov).
Proof.
  split; [reflexivity|]. split.
  - intros p opts. eexists. split; reflexivity.
  - eexists. reflexivity.
Qed.

End AssumeRole.

(* ===================================================================== *)
(** * The URL-safe base64 encoding without padding
      (encoding/base64, [RawURLEncoding]) *)
(* ===================================================================== *)

Module Base64.

Definition alphabet : list ascii :=
  list_ascii_of_string
    "ABCDEFGHIJKLMNOPQRSTUVWXYZabcdefghijklmnopqrstuvwxyz0123456789-_".

(** The padding character of the padded encodings. *)
Definition padding : ascii := "="%char.

(** The character of the six low bits of [n]. *)
Definition char_of_sextet (n : N) : ascii :=
  nth (N.to_nat (n mod 64)) alphabet "A"%char.

Definition byte_of_N (n : N) : Byte.byte :=
  match Byte.of_N (n mod 256) with
  | Some b => b
  | None => Byte.x00
  end.

(** Three bytes give four characters; a rest of two bytes gives three and
    a rest of one byte gives two. *)
Fixpoint encode (bs : list Byte.byte) : list ascii :=
  match bs with
  | [] => []
  | [a] =>
      let n := (Byte.to_N a * 16)%N in
      [char_of_sextet (n / 64); char_of_sextet n]
  | [a; b] =>
      let n := (Byte.to_N a * 1024 + Byte.to_N b * 4)%N in
      [char_of_sextet (n / 4096); char_of_sextet (n / 64); char_of_sextet n]
  | a :: b :: c :: rest =>
      let n := (Byte.to_N a * 65536 + Byte.to_N b * 256 + Byte.to_N c)%N in
      char_of_sextet (n / 262144) :: char_of_sextet (n / 4096)
        :: char_of_sextet (n / 64) :: char_of_sextet n :: encode rest
  end.

Definition EncodeToString (bs : list Byte.byte) : string :=
  string_of_list_ascii (encode bs).

Fixpoint index_of (c : ascii) (l : list ascii) (i : N) : option N :=
  match l with
  | [] => None
  | x :: l => if Ascii.eqb x c then Some i else index_of c l (i + 1)%N
  end.

Definition sextet_of_char (c : ascii) : option N := index_of c alphabet 0%N.

Fixpoint sextets (cs : list ascii) : option (list N) :=
  match cs with
  | [] => Some []
  | c :: cs =>
      match sextet_of_char c, sextets cs with
      | Some n, Some ns => Some (n :: ns)
      | _, _ => None
      end
  end.

Fixpoint decode (ns : list N) : option (list Byte.byte) :=
  match ns with
  | [] => Some []
  | [_] => None
  | [a; b] =>
      let n := (a * 64 + b)%N in
      Some [byte_of_N (n / 16)]
  | [a; b; c] =>
      let n := (a * 4096 + b * 64 + c)%N in
      Some [byte_of_N (n / 1024); byte_of_N (n / 4)]
  | a :: b :: c :: d :: rest =>
      let n := (a * 262144 + b * 4096 + c * 64 + d)%N in
      match decode rest with
      | Some bs => Some (byte_of_N (n / 65536) :: byte_of_N (n / 256) :: byte_of_N n :: bs)
      | None => None
      end
  end.

Definition DecodeString (s : string) : option (list Byte.byte) :=
  match sextets (list_ascii_of_string s) with
  | Some ns => decode ns
  | None => None
  end.

Example encode_bytes :
  EncodeToString [Byte.x00; Byte.x01; Byte.x02; Byte.xfb; Byte.xff] = "AAEC-_8".
Proof. reflexivity. Qed.

Example decode_bytes :
  DecodeString "AAEC-_8" = Some [Byte.x00; Byte.x01; Byte.x02; Byte.xfb; Byte.xff].
Proof. reflexivity. Qed.

Example decode_payload :
  DecodeString "payload" = Some [Byte.xa5; Byte.xac; Byte.xa5; Byte.xa1; Byte.xa7].
Proof. reflexivity. Qed.

Example decode_bar : DecodeString "pay|load" = None.
Proof. reflexivity. Qed.

(** ** The length of an encoding and its characters *)

(** Induction on a list of bytes three at a time, as [encode] reads it. *)
Lemma list_ind3 {A : Type} (P : list A -> Prop) :
  P [] -> (forall a, P [a]) -> (forall a b, P [a; b]) ->
  (forall a b c rest, P rest -> P (a :: b :: c :: rest)) ->
  forall l, P l.
Proof.
  intros H0 H1 H2 H3.
  assert (H : forall n (l : list A), (length l <= n)%nat -> P l).
  { induction n as [|n IH]; intros l Hl.
    - destruct l; [exact H0 | cbn in Hl; lia].
    - destruct l as [|a [|b [|c rest]]]; auto.
      apply H3, IH. cbn in Hl. lia. }
  intros l. apply (H (length l)). lia.
Qed.

Lemma encode_length (bs : list Byte.byte) :
  length (encode bs) = ((4 * length bs + 2) / 3)%nat.
Proof.
  induction bs as [|a|a b|a b c rest IH] using list_ind3; try reflexivity.
  cbn [encode length]. rewrite IH.
  replace (4 * S (S (S (length rest))) + 2)%nat
    with ((4 * length rest + 2) + 4 * 3)%nat by lia.
  rewrite Nat.div_add by lia. lia.
Qed.

Lemma string_of_list_ascii_length (cs : list ascii) :
  String.length (string_of_list_ascii cs) = length cs.
Proof. induction cs as [|c cs IH]; cbn; [reflexivity | now rewrite IH]. Qed.

Lemma EncodeToString_length (bs : list Byte.byte) :
  String.length (EncodeToString bs) = ((4 * length bs + 2) / 3)%nat.
Proof.
  unfold EncodeToString. rewrite string_of_list_ascii_length. apply encode_length.
Qed.

(** An encoding of at least 32 bytes has at least 43 characters. *)
Lemma EncodeToString_length_32 (bs : list Byte.byte) :
  (32 <= length bs)%nat -> (43 <= String.length (EncodeToString bs))%nat.
Proof.
  intros H. rewrite EncodeToString_length.
  change 43%nat with ((4 * 32 + 2) / 3)%nat.
  apply Nat.Div0.div_le_mono. lia.
Qed.

Lemma char_of_sextet_alphabet (n : N) : In (char_of_sextet n) alphabet.
Proof.
  unfold char_of_sextet. apply nth_In.
  change (length alphabet) with 64%nat.
  pose proof (N.mod_upper_bound n 64). lia.
Qed.

Lemma padding_not_in_alphabet : ~ In padding alphabet.
Proof.
  intros H.
  assert (Hex : existsb (Ascii.eqb padding) alphabet = true).
  { apply existsb_exists. exists padding. split; [exact H | apply Ascii.eqb_refl]. }
  vm_compute in Hex. discriminate.
Qed.

Lemma encode_alphabet (bs : list Byte.byte) :
  forall c, In c (encode bs) -> In c alphabet.
Proof.
  induction bs as [|a|a b|a b c rest IH] using list_ind3; intros x; cbn [encode In].
  - intros [].
  - intros [<-|[<-|[]]]; apply char_of_sextet_alphabet.
  - intros [<-|[<-|[<-|[]]]]; apply char_of_sextet_alphabet.
  - intros [<-|[<-|[<-|[<-|H]]]]; try apply char_of_sextet_alphabet. now apply IH.
Qed.

(** No character of an encoding is the padding character. *)
Lemma EncodeToString_no_padding (bs : list Byte.byte) :
  ~ In padding (list_ascii_of_string (EncodeToString bs)).
Proof.
  unfold EncodeToString. rewrite list_ascii_of_string_of_list_ascii.
  intros H. apply padding_not_in_alphabet, (encode_alphabet bs), H.
Qed.

(** ** Decoding an encoding *)

Lemma to_N_lt (a : Byte.byte) : (Byte.to_N a < 256)%N.
Proof. pose proof (Byte.to_N_bounded a). lia. Qed.

Lemma byte_of_N_to_N (k : N) (a : Byte.byte) :
  (k mod 256 = Byte.to_N a)%N -> byte_of_N k = a.
Proof. intros H. unfold byte_of_N. now rewrite H, Byte.of_to_N. Qed.

Lemma sextet_of_char_of_sextet (n : N) :
  sextet_of_char (char_of_sextet n) = Some (n mod 64)%N.
Proof.
  assert (Hall : forallb (fun k => match sextet_of_char (nth k alphabet "A"%char) with
                                   | Some j => N.eqb j (N.of_nat k)
                                   | None => false
                                   end) (seq 0 64) = true) by (vm_compute; reflexivity).
  rewrite forallb_forall in Hall.
  assert (Hlt : (n mod 64 < 64)%N) by (apply N.mod_upper_bound; lia).
  assert (Hin : In (N.to_nat (n mod 64)) (seq 0 64))
    by (apply in_seq; split; [apply Nat.le_0_l | lia]).
  specialize (Hall _ Hin). unfold char_of_sextet.
  destruct (sextet_of_char _) as [j|]; [|discriminate].
  apply N.eqb_eq in Hall. f_equal. lia.
Qed.

(** Linear arithmetic with division and remainder by constants. *)
Ltac euclid := zify; Z.to_euclidean_division_equations; lia.

(** Splitting a number into sextets and putting them together again,
    and the bytes of a group of three, two and one. *)
Lemma sextets4 (n : N) :
  (n < 16777216 ->
   (n / 262144) mod 64 * 262144 + (n / 4096) mod 64 * 4096
   + (n / 64) mod 64 * 64 + n mod 64 = n)%N.
Proof. intros H. euclid. Qed.

Lemma sextets3 (n : N) :
  (n < 262144 -> (n / 4096) mod 64 * 4096 + (n / 64) mod 64 * 64 + n mod 64 = n)%N.
Proof. intros H. euclid. Qed.

Lemma sextets2 (n : N) : (n < 4096 -> (n / 64) mod 64 * 64 + n mod 64 = n)%N.
Proof. intros H. euclid. Qed.

Lemma bytes3 (x y z : N) :
  (x < 256 -> y < 256 -> z < 256 ->
   let n := x * 65536 + y * 256 + z in
   n < 16777216 /\ (n / 65536) mod 256 = x /\ (n / 256) mod 256 = y /\ n mod 256 = z)%N.
Proof. intros Hx Hy Hz n. subst n. euclid. Qed.

Lemma bytes2 (x y : N) :
  (x < 256 -> y < 256 ->
   let n := x * 1024 + y * 4 in
   n < 262144 /\ (n / 1024) mod 256 = x /\ (n / 4) mod 256 = y)%N.
Proof. intros Hx Hy n. subst n. euclid. Qed.

Lemma bytes1 (x : N) :
  (x < 256 -> let n := x * 16 in n < 4096 /\ (n / 16) mod 256 = x)%N.
Proof. intros Hx n. subst n. euclid. Qed.

(** The characters of an encoding are read back as sextets, and the
    sextets give the bytes back. *)
Lemma decode_sextets_encode (bs : list Byte.byte) :
  exists ns, sextets (encode bs) = Some ns /\ decode ns = Some bs.
Proof.
  induction bs as [|a|a b|a b c rest (ns & Hs & Hd)] using list_ind3.
  - exists []. split; reflexivity.
  - cbn [encode sextets]. rewrite !sextet_of_char_of_sextet.
    eexists. split; [reflexivity|]. cbn [decode].
    destruct (bytes1 _ (to_N_lt a)) as (Hn & Ha).
    rewrite (sextets2 _ Hn). do 2 f_equal. now apply byte_of_N_to_N.
  - cbn [encode sextets]. rewrite !sextet_of_char_of_sextet.
    eexists. split; [reflexivity|]. cbn [decode].
    destruct (bytes2 _ _ (to_N_lt a) (to_N_lt b)) as (Hn & Ha & Hb).
    rewrite (sextets3 _ Hn).
    f_equal. f_equal; [|f_equal]; now apply byte_of_N_to_N.
  - cbn [encode sextets]. rewrite !sextet_of_char_of_sextet, Hs.
    eexists. split; [reflexivity|]. cbn [decode]. rewrite Hd.
    destruct (bytes3 _ _ _ (to_N_lt a) (to_N_lt b) (to_N_lt c)) as (Hn & Ha & Hb & Hc).
    rewrite (sextets4 _ Hn).
    f_equal. f_equal; [|f_equal; [|f_equal]]; now apply byte_of_N_to_N.
Qed.

(** Decoding the encoding of bytes gives the bytes. *)
Lemma DecodeString_EncodeToString (bs : list Byte.byte) :
  DecodeString (EncodeToString bs) = Some bs.
Proof.
  unfold DecodeString, EncodeToString.
  rewrite list_ascii_of_string_of_list_ascii.
  destruct (decode_sextets_encode bs) as (ns & -> & Hd). exact Hd.
Qed.

End Base64.

(* ===================================================================== *)
(** * SHA-256 (crypto/sha256), following FIPS 180-4 *)
(* ===================================================================== *)

Module Sha256.

Local Open Scope N_scope.

(** Words are numbers below 2^32. *)
Definition w32 (x : N) : N := x mod 4294967296.
Definition add32 (x y : N) : N := w32 (x + y).
Definition rotr (n x : N) : N := w32 (N.lor (N.shiftr x n) (N.shiftl x (32 - n))).
Definition shr (n x : N) : N := N.shiftr x n.
Definition not32 (x : N) : N := N.lxor x 4294967295.

Definition Ch (x y z : N) : N := N.lxor (N.land x y) (N.land (not32 x) z).
Definition Maj (x y z : N) : N :=
  N.lxor (N.lxor (N.land x y) (N.land x z)) (N.land y z).
Definition Sigma0 (x : N) : N := N.lxor (N.lxor (rotr 2 x) (rotr 13 x)) (rotr 22 x).
Definition Sigma1 (x : N) : N := N.lxor (N.lxor (rotr 6 x) (rotr 11 x)) (rotr 25 x).
Definition sigma0 (x : N) : N := N.lxor (N.lxor (rotr 7 x) (rotr 18 x)) (shr 3 x).
Definition sigma1 (x : N) : N := N.lxor (N.lxor (rotr 17 x) (rotr 19 x)) (shr 10 x).

(** The first prime numbers. *)
Definition is_prime (n : nat) : bool :=
  forallb (fun d => negb (n mod d =? 0)%nat) (seq 2 (n - 2)).

Definition primes (count : nat) : list N :=
  map N.of_nat (firstn count (List.filter is_prime (seq 2 310))).

(** The largest [r + i] with [i] below [2 ^ bits] whose cube is at most
    [x]. *)
Fixpoint root3 (bits : nat) (x r : N) : N :=
  match bits with
  | O => r
  | S bits =>
      let r' := r + 2 ^ N.of_nat bits in
      if r' ^ 3 <=? x then root3 bits x r' else root3 bits x r
  end.

(** The first 32 bits of the fractional part of the square root and of
    the cube root of [p]. *)
Definition frac_sqrt (p : N) : N := w32 (N.sqrt (p * 2 ^ 64)).
Definition frac_cbrt (p : N) : N := w32 (root3 36 (p * 2 ^ 96) 0).

(** The round constants come from the cube roots of the first 64 primes
    and the initial hash value from the square roots of the first 8. *)
Definition K : list N := Eval vm_compute in map frac_cbrt (primes 64).

Definition H0 : list N := Eval vm_compute in map frac_sqrt (primes 8).

(** The message, a one bit, zeros up to 56 modulo 64 bytes, and the
    length of the message in bits on 8 bytes. *)
Definition be_bytes (count : nat) (x : N) : list N :=
  map (fun i => (x / 256 ^ N.of_nat (count - 1 - i)) mod 256) (seq 0 count).

Definition pad (msg : list N) : list N :=
  let len := N.of_nat (length msg) in
  let zeros := (64 - (len + 9) mod 64) mod 64 in
  msg ++ [128] ++ repeat 0 (N.to_nat zeros) ++ be_bytes 8 (len * 8).

Fixpoint be_words (bs : list N) : list N :=
  match bs with
  | a :: b :: c :: d :: rest =>
      (a * 16777216 + b * 65536 + c * 256 + d) :: be_words rest
  | _ => []
  end.

Fixpoint blocks (count : nat) (ws : list N) : list (list N) :=
  match count with
  | O => []
  | S count => firstn 16 ws :: blocks count (skipn 16 ws)
  end.

(** The message schedule, the latest word first. *)
Fixpoint extend (count : nat) (w : list N) : list N :=
  match count with
  | O => w
  | S count =>
      let x := add32 (add32 (sigma1 (nth 1 w 0)) (nth 6 w 0))
                     (add32 (sigma0 (nth 14 w 0)) (nth 15 w 0)) in
      extend count (x :: w)
  end.

Definition schedule (block : list N) : list N := rev (extend 48 (rev block)).

Definition round (s : list N) (kw : N * N) : list N :=
  match s with
  | [a; b; c; d; e; f; g; h] =>
      let t1 := add32 (add32 (add32 h (Sigma1 e)) (Ch e f g))
                      (add32 (fst kw) (snd kw)) in
      let t2 := add32 (Sigma0 a) (Maj a b c) in
      [add32 t1 t2; a; b; c; add32 d t1; e; f; g]
  | _ => s
  end.

Definition add_words (x y : list N) : list N :=
  map (fun p => add32 (fst p) (snd p)) (combine x y).

Definition compress (h : list N) (block : list N) : list N :=
  add_words h (fold_left round (combine K (schedule block)) h).

Definition Sum256 (msg : list Byte.byte) : list Byte.byte :=
  let padded := pad (map Byte.to_N msg) in
  let ws := be_words padded in
  let h := fold_left compress (blocks (length ws / 16) ws) H0 in
  map Base64.byte_of_N (flat_map (be_bytes 4) h).

Example K_ends : nth 0 K 0 = 0x428a2f98 /\ nth 63 K 0 = 0xc67178f2.
Proof. split; reflexivity. Qed.

Example H0_ends : nth 0 H0 0 = 0x6a09e667 /\ nth 7 H0 0 = 0x5be0cd19.
Proof. split; reflexivity. Qed.

(** The digest of "abc" (FIPS 180-4, appendix). *)
Example Sum256_abc :
  map Byte.to_N (Sum256 (list_byte_of_string "abc")) =
    [ 0xba; 0x78; 0x16; 0xbf; 0x8f; 0x01; 0xcf; 0xea; 0x41; 0x41; 0x40; 0xde;
      0x5d; 0xae; 0x22; 0x23; 0xb0; 0x03; 0x61; 0xa3; 0x96; 0x17; 0x7a; 0x9c;
      0xb4; 0x10; 0xff; 0x61; 0xf2; 0x00; 0x15; 0xad ].
Proof. vm_compute. reflexivity. Qed.

End Sha256.

(* ===================================================================== *)
(** * client/external/pkce: the verifier and the challenge *)
(* ===================================================================== *)

Module Pkce.

Record pkceCode : Type := mkPkceCode {
  verifier  : string;
  challenge : string
}.

Definition Verifier (p : pkceCode) : string := verifier p.
Definition Challenge (p : pkceCode) : string := challenge p.

Section Generate.

Context {error : Type}.

(** The source of secure randomness ([crypto/rand]): asked for a number
    of bytes, it gives that many or fails. *)
Variable rand_Read : nat -> error + list Byte.byte.

(** The hash function ([crypto/sha256]). *)
Variable Sum256 : list Byte.byte -> list Byte.byte.

(** The number of random bytes of a verifier. *)
Variable size : nat.

(** Modelled from the spec: [newPkceCode] is not among the sources (its
    test is).  The verifier is the unpadded URL-safe base64 encoding of
    the random bytes, and the challenge is the same encoding of the
    SHA-256 hash of the bytes of the verifier.  It fails only when the
    source of randomness does. *)
Definition newPkceCode : error + pkceCode :=
  match rand_Read size with
  | inl err => inl err
  | inr b =>
      let v := Base64.EncodeToString b in
      let h := Sum256 (list_byte_of_string v) in
      inr (mkPkceCode v (Base64.EncodeToString h))
  end.

End Generate.

(** ** A run of the generator *)

(** A source that gives the bytes 0, 1, 2, ... *)
Definition counting (n : nat) : unit + list Byte.byte :=
  inr (map (fun i => Base64.byte_of_N (N.of_nat i)) (seq 0 n)).

(** The generator fails exactly when the source of randomness does. *)
Lemma newPkceCode_fails {error : Type} (rand_Read : nat -> error + list Byte.byte)
      (Sum256 : list Byte.byte -> list Byte.byte) (size : nat) (err : error) :
  newPkceCode rand_Read Sum256 size = inl err <-> rand_Read size = inl err.
Proof.
  unfold newPkceCode. destruct (rand_Read size); split; congruence.
Qed.

Lemma counting_length n b : counting n = inr b -> length b = n.
Proof. intros [= <-]. now rewrite length_map, length_seq. Qed.

Example newPkceCode_counting :
  newPkceCode counting Sha256.Sum256 32 =
    inr (mkPkceCode "AAECAwQFBgcICQoLDA0ODxAREhMUFRYXGBkaGxwdHh8"
                    "6oZqdX5MOLq_qBJ8vppAnT4fk6AP8UiP9zX8-Rev_9A").
Proof. vm_compute. reflexivity. Qed.

(** ** Theorems *)

(** C5: for every code a successful [newPkceCode] returns, the generator
    reading at least 32 random bytes from a source that gives as many
    bytes as it is asked for: the verifier has at least 43 characters, the
    challenge is the unpadded URL-safe base64 encoding of the SHA-256 hash
    of the bytes of the verifier, and no character of the challenge is the
    padding character. *)
Theorem newPkceCode_verifier_challenge :
  forall (error : Type) (rand_Read : nat -> error + list Byte.byte)
         (Sum256 : list Byte.byte -> list Byte.byte) (size : nat) (code : pkceCode),
    (32 <= size)%nat ->
    (forall n b, rand_Read n = inr b -> length b = n) ->
    newPkceCode rand_Read Sum256 size = inr code ->
    (43 <= String.length (Verifier code))%nat /\
    Challenge code =
      Base64.EncodeToString (Sum256 (list_byte_of_string (Verifier code))) /\
    ~ In Base64.padding (list_ascii_of_string (Challenge code)).
Proof.
  intros error rand_Read Sum256 size code Hsize Hrand. unfold newPkceCode.
  destruct (rand_Read size) as [err|b] eqn:Hb; [discriminate|].
  intros [= <-]. cbn [Verifier Challenge verifier challenge].
  split; [|split].
  - apply Base64.EncodeToString_length_32. rewrite (Hrand _ _ Hb). exact Hsize.
  - reflexivity.
  - apply Base64.EncodeToString_no_padding.
Qed.

Lemma newPkceCode_verifier_challenge_witness :
  let code := mkPkceCode "AAECAwQFBgcICQoLDA0ODxAREhMUFRYXGBkaGxwdHh8"
                         "6oZqdX5MOLq_qBJ8vppAnT4fk6AP8UiP9zX8-Rev_9A" in
  (43 <= String.length (Verifier code))%nat /\
  Challenge code =
    Base64.EncodeToString (Sha256.Sum256 (list_byte_of_string (Verifier code))) /\
  ~ In Base64.padding (list_ascii_of_string (Challenge code)).
Proof.
  intros code.
  apply (newPkceCode_verifier_challenge unit counting Sha256.Sum256 32 code).
  - lia.
  - exact counting_length.
  - vm_compute. reflexivity.
Defined.

End Pkce.

(* ===================================================================== *)
(** * credentials/oidc_identity_token: the expiration of a token *)
(* ===================================================================== *)

Module OidcToken.

(** A member of a decoded JSON object, as far as the token looks at it:
    a number is a number of seconds since the epoch. *)
Inductive JsonValue : Type :=
| JNull
| JBool (b : bool)
| JNumber (n : Z)
| JString (s : string)
| JNested.

(** A decoded JSON object: a map from names to values. *)
Abbreviation Claims := (gmap string JsonValue).

(** [strings.Split s sep] for a separator of one character. *)
Fixpoint Split (s : string) (sep : ascii) : list string :=
  match s with
  | EmptyString => [EmptyString]
  | String a rest =>
      if Ascii.eqb a sep then EmptyString :: Split rest sep
      else match Split rest sep with
           | seg :: segs => String a seg :: segs
           | [] => [String a EmptyString]
           end
  end.

(** An identity token is its raw string. *)
Definition OidcIdentityToken : Type := string.

Section IsExpired.

(** The decoders are libraries ([encoding/base64], [encoding/json]):
    each gives the decoded value, or nothing when the input is invalid. *)
Variable DecodeString : string -> option (list Byte.byte).
Variable Unmarshal : list Byte.byte -> option Claims.

(** Modelled from the spec: [IsExpired] is not among the sources (its
    test is).  The token is split at the dots into exactly three segments,
    the second is decoded as URL-safe base64 and then as a JSON object,
    and the member [exp] is compared with the current time [now], in
    seconds since the epoch.  Whatever goes wrong, the token is
    expired. *)
Definition IsExpired (now : Z) (t : OidcIdentityToken) : bool :=
  match Split t "." with
  | [_; payload; _] =>
      match DecodeString payload with
      | None => true
      | Some bytes =>
          match Unmarshal bytes with
          | None => true
          | Some claims =>
              match claims !! "exp" with
              | Some (JNumber exp) => negb (now <? exp)%Z
              | _ => true
              end
          end
      end
  | _ => true
  end.

(** The claims of the payload of a token of three segments. *)
Definition payload_claims (t : OidcIdentityToken) (claims : Claims) : Prop :=
  exists header payload signature bytes,
    Split t "." = [header; payload; signature] /\
    DecodeString payload = Some bytes /\
    Unmarshal bytes = Some claims.

(** The ways a token can be malformed. *)
Inductive Malformed (t : OidcIdentityToken) : Prop :=
| wrong_segment_count :
    length (Split t ".") <> 3%nat -> Malformed t
| invalid_encoding header payload signature :
    Split t "." = [header; payload; signature] ->
    DecodeString payload = None -> Malformed t
| invalid_json header payload signature bytes :
    Split t "." = [header; payload; signature] ->
    DecodeString payload = Some bytes ->
    Unmarshal bytes = None -> Malformed t
| exp_absent claims :
    payload_claims t claims -> claims !! "exp" = None -> Malformed t
| exp_not_numeric claims v :
    payload_claims t claims -> claims !! "exp" = Some v ->
    (forall n, v <> JNumber n) -> Malformed t.

(** A well-formed token with the numeric expiration [exp]. *)
Definition expires_at (t : OidcIdentityToken) (exp : Z) : Prop :=
  exists claims, payload_claims t claims /\ claims !! "exp" = Some (JNumber exp).

End IsExpired.

(** ** A reader of flat JSON objects

    It reads an object whose members are strings without escapes, whole
    numbers, [true], [false] and [null], written without white space, which
    is what the payloads of the test are.  [IsExpired] is evaluated with it
    in the place of [encoding/json]. *)
Module Json.

Definition quote : ascii := ascii_of_nat 34.

(** The characters up to the closing quote, and what follows it. *)
Fixpoint read_string (s : string) : option (string * string) :=
  match s with
  | EmptyString => None
  | String c rest =>
      if Ascii.eqb c quote then Some (EmptyString, rest)
      else if Ascii.eqb c "\" then None
      else match read_string rest with
           | Some (str, rest) => Some (String c str, rest)
           | None => None
           end
  end.

Definition digit (c : ascii) : option Z :=
  let n := nat_of_ascii c in
  if ((48 <=? n) && (n <=? 57))%nat then Some (Z.of_nat (n - 48)) else None.

(** The digits at the start of [s] after the number [acc], and what
    follows them. *)
Fixpoint read_digits (s : string) (acc : Z) : Z * string :=
  match s with
  | EmptyString => (acc, s)
  | String c rest =>
      match digit c with
      | Some d => read_digits rest (acc * 10 + d)%Z
      | None => (acc, s)
      end
  end.

Definition read_literal (lit : string) (v : JsonValue) (s : string)
  : option (JsonValue * string) :=
  if String.prefix lit s
  then Some (v, String.substring (String.length lit)
                                 (String.length s - String.length lit) s)
  else None.

Definition read_value (s : string) : option (JsonValue * string) :=
  match s with
  | EmptyString => None
  | String c rest =>
      if Ascii.eqb c quote then
        match read_string rest with
        | Some (str, rest) => Some (JString str, rest)
        | None => None
        end
      else if Ascii.eqb c "-" then
        match rest with
        | String d _ =>
            match digit d with
            | Some _ => let (n, rest) := read_digits rest 0 in Some (JNumber (- n), rest)
            | None => None
            end
        | EmptyString => None
        end
      else
        match digit c with
        | Some _ => let (n, rest) := read_digits s 0 in Some (JNumber n, rest)
        | None =>
            match read_literal "true" (JBool true) s with
            | Some r => Some r
            | None =>
                match read_literal "false" (JBool false) s with
                | Some r => Some r
                | None => read_literal "null" JNull s
                end
            end
        end
  end.

(** The members after the opening brace or a comma. *)
Fixpoint read_members (fuel : nat) (s : string) (acc : Claims) : option Claims :=
  match fuel with
  | O => None
  | S fuel =>
      match s with
      | String q rest =>
          if Ascii.eqb q quote then
            match read_string rest with
            | Some (key, String colon rest) =>
                if Ascii.eqb colon ":" then
                  match read_value rest with
                  | Some (v, String next rest) =>
                      if Ascii.eqb next "," then read_members fuel rest (<[key := v]> acc)
                      else if Ascii.eqb next "}" then
                        match rest with
                        | EmptyString => Some (<[key := v]> acc)
                        | _ => None
                        end
                      else None
                  | _ => None
                  end
                else None
            | _ => None
            end
          else None
      | EmptyString => None
      end
  end.

Definition Unmarshal (bytes : list Byte.byte) : option Claims :=
  match string_of_list_byte bytes with
  | String open rest =>
      if Ascii.eqb open "{" then
        if String.eqb rest "}" then Some ∅
        else read_members (String.length rest) rest ∅
      else None
  | EmptyString => None
  end.

End Json.

(** ** The cases of the test, at the time 2000000000 *)

Definition expired (now : Z) (t : OidcIdentityToken) : bool :=
  IsExpired Base64.DecodeString Json.Unmarshal now t.

Definition now : Z := 2000000000.

(** The payloads are [{exp:2000003600}], [{exp:1999996400}],
    [{exp:invalid}] and [{sub:me}], with their quotes, encoded. *)
Definition token_ahead : OidcIdentityToken := "mock.eyJleHAiOjIwMDAwMDM2MDB9.mock".
Definition token_behind : OidcIdentityToken := "mock.eyJleHAiOjE5OTk5OTY0MDB9.mock".
Definition token_exp_string : OidcIdentityToken := "mock.eyJleHAiOiJpbnZhbGlkIn0.mock".
Definition token_no_exp : OidcIdentityToken := "mock.eyJzdWIiOiJtZSJ9.mock".

(** ** The check, case by case *)

Section IsExpiredFacts.

Variable DecodeString : string -> option (list Byte.byte).
Variable Unmarshal : list Byte.byte -> option Claims.

Local Abbreviation IsExpired := (IsExpired DecodeString Unmarshal).
Local Abbreviation Malformed := (Malformed DecodeString Unmarshal).
Local Abbreviation payload_claims := (payload_claims DecodeString Unmarshal).
Local Abbreviation expires_at := (expires_at DecodeString Unmarshal).

Lemma IsExpired_claims now t claims :
  payload_claims t claims ->
  IsExpired now t = match claims !! "exp" with
                    | Some (JNumber exp) => negb (now <? exp)%Z
                    | _ => true
                    end.
Proof.
  intros (header & payload & signature & bytes & Hs & Hd & Hu).
  unfold IsExpired. rewrite Hs, Hd, Hu. reflexivity.
Qed.

Lemma IsExpired_malformed now t : Malformed t -> IsExpired now t = true.
Proof.
  intros [Hn | h p s Hs Hd | h p s bytes Hs Hd Hu | claims Hc He | claims v Hc He Hv].
  - unfold IsExpired.
    destruct (Split t ".") as [|a [|b [|c [|d l]]]]; try reflexivity.
    now destruct Hn.
  - unfold IsExpired. rewrite Hs, Hd. reflexivity.
  - unfold IsExpired. rewrite Hs, Hd, Hu. reflexivity.
  - rewrite (IsExpired_claims _ _ _ Hc), He. reflexivity.
  - rewrite (IsExpired_claims _ _ _ Hc), He.
    destruct v; try reflexivity. now destruct (Hv n).
Qed.

Lemma IsExpired_expires_at now t exp :
  expires_at t exp -> IsExpired now t = negb (now <? exp)%Z.
Proof.
  intros (claims & Hc & He). rewrite (IsExpired_claims _ _ _ Hc), He. reflexivity.
Qed.

(** Every token is malformed or well-formed with an expiration. *)
Lemma Malformed_or_expires_at t : Malformed t \/ exists exp, expires_at t exp.
Proof.
  destruct (Split t ".") as [|h [|p [|s [|x l]]]] eqn:Hs;
    try (left; apply wrong_segment_count; rewrite Hs; cbn; lia).
  destruct (DecodeString p) as [bytes|] eqn:Hd;
    [|left; eapply invalid_encoding; eassumption].
  destruct (Unmarshal bytes) as [claims|] eqn:Hu;
    [|left; eapply invalid_json; eassumption].
  assert (Hc : payload_claims t claims) by (exists h, p, s, bytes; auto).
  destruct (claims !! "exp") as [v|] eqn:He;
    [|left; eapply exp_absent; eassumption].
  destruct v as [| b | n | str |];
    try (left; eapply exp_not_numeric; [eassumption | eassumption | discriminate]).
  right. exists n, claims. auto.
Qed.

End IsExpiredFacts.

Example good : expired now token_ahead = false.
Proof. vm_compute. reflexivity. Qed.

Example invalid_token_format : expired now "mock.payload" = true.
Proof. vm_compute. reflexivity. Qed.

Example invalid_token_payload_encoding : expired now "mock.pay|load.mock" = true.
Proof. vm_compute. reflexivity. Qed.

Example invalid_payload_json : expired now "mock.payload.mock" = true.
Proof. vm_compute. reflexivity. Qed.

Example invalid_payload_expiration : expired now token_exp_string = true.
Proof. vm_compute. reflexivity. Qed.

(** ** Theorems *)

(** C4: a token that is malformed in any of the ways a token can be (a
    number of segments other than three, a payload that is not URL-safe
    base64, a decoded payload that is not a JSON object, no [exp] member or
    one that is not a number) is expired; and a well-formed token with a
    numeric [exp] is not expired exactly when [exp] is after the current
    time: it is not expired with [exp] one hour ahead and it is expired
    with [exp] one hour behind. *)
Theorem IsExpired_fail_safe :
  forall (DecodeString : string -> option (list Byte.byte))
         (Unmarshal : list Byte.byte -> option Claims)
         (now : Z) (t : OidcIdentityToken),
    (Malformed DecodeString Unmarshal t ->
     IsExpired DecodeString Unmarshal now t = true) /\
    (forall exp, expires_at DecodeString Unmarshal t exp ->
                 (IsExpired DecodeString Unmarshal now t = false <-> (now < exp)%Z)) /\
    (expires_at DecodeString Unmarshal t (now + 3600) ->
     IsExpired DecodeString Unmarshal now t = false) /\
    (expires_at DecodeString Unmarshal t (now - 3600) ->
     IsExpired DecodeString Unmarshal now t = true).
Proof.
  intros DecodeString Unmarshal now t. split; [apply IsExpired_malformed|].
  split; [|split].
  - intros exp H. rewrite (IsExpired_expires_at _ _ _ _ _ H).
    destruct (Z.ltb_spec now exp); cbn; split; intros; try lia; congruence.
  - intros H. rewrite (IsExpired_expires_at _ _ _ _ _ H).
    destruct (Z.ltb_spec now (now + 3600)); [reflexivity | lia].
  - intros H. rewrite (IsExpired_expires_at _ _ _ _ _ H).
    destruct (Z.ltb_spec now (now - 3600)); [lia | reflexivity].
Qed.

Lemma IsExpired_fail_safe_witness :
  expired now "mock.payload" = true /\
  expired now "mock.pay|load.mock" = true /\
  expired now "mock.payload.mock" = true /\
  expired now token_no_exp = true /\
  expired now token_exp_string = true /\
  (expired now token_ahead = false <-> (now < 2000003600)%Z) /\
  expired now token_ahead = false /\
  expired now token_behind = true.
Proof.
  pose proof (IsExpired_fail_safe Base64.DecodeString Json.Unmarshal now) as H.
  assert (Hclaims : forall t exp,
             (exists claims h p s bytes,
                 Split t "." = [h; p; s] /\ Base64.DecodeString p = Some bytes /\
                 Json.Unmarshal bytes = Some claims /\
                 claims !! "exp" = Some (JNumber exp)) ->
             expires_at Base64.DecodeString Json.Unmarshal t exp).
  { intros t exp (claims & h & p & s & bytes & Hs & Hd & Hu & He).
    exists claims. split; [exists h, p, s, bytes; auto | exact He]. }
  unfold expired.
  split; [|split; [|split; [|split; [|split; [|split; [|split]]]]]].
  - destruct (H "mock.payload") as (Hbad & _). apply Hbad.
    apply wrong_segment_count. vm_compute. discriminate.
  - destruct (H "mock.pay|load.mock") as (Hbad & _). apply Hbad.
    eapply invalid_encoding; vm_compute; reflexivity.
  - destruct (H "mock.payload.mock") as (Hbad & _). apply Hbad.
    eapply invalid_json; vm_compute; reflexivity.
  - destruct (H token_no_exp) as (Hbad & _). apply Hbad.
    eapply exp_absent; [eexists _, _, _, _; repeat split|]; vm_compute; reflexivity.
  - destruct (H token_exp_string) as (Hbad & _). apply Hbad.
    eapply exp_not_numeric with (v := JString "invalid");
      [eexists _, _, _, _; repeat split; vm_compute; reflexivity
      | vm_compute; reflexivity | discriminate].
  - destruct (H token_ahead) as (_ & Hiff & _). apply Hiff, Hclaims.
    eexists _, _, _, _, _. repeat split; vm_compute; reflexivity.
  - destruct (H token_ahead) as (_ & _ & Hahead & _). apply Hahead, Hclaims.
    eexists _, _, _, _, _. repeat split; vm_compute; reflexivity.
  - destruct (H token_behind) as (_ & _ & _ & Hbehind). apply Hbehind, Hclaims.
    eexists _, _, _, _, _. repeat split; vm_compute; reflexivity.
Defined.

End OidcToken.
